(** * claude-web-mcp: the coordination core of [src/core/claude-code-advanced.ts]

    A shallow embedding of the five classes of the file,
    [ClaudeCodeAPIExtractor], [ClaudeSessionPool], [RateLimitHandler],
    [ClaudeCodeProxy] and [CodeStreamHandler], followed by the properties
    of them that the specification talks about, and by further properties
    of the same code.

    Conventions of the embedding.
    - An object is a record of its private fields; a method is a function
      from the record to the new record (and a result).
    - [Date.now()] is an explicit argument [now], in milliseconds.
    - An [async] method is cut at each [await] on a timer: the code before
      the [await] and the code after it are two functions, because other
      callers run in between.
    - A promise the code awaits is given by the state an observer finds
      it in, [JS.promise]: fulfilled, rejected, or still pending.
    - JavaScript numbers that the code only counts with are [Z] or [nat];
      a number that may be [NaN] is a [JS.number].  The model is exact for
      integers of magnitude below 2^53, and identifies [-0] with [0].
    - What the classes take from outside is a parameter: the browser's
      contexts and pages, the server behind [fetch], the transport's
      events, [JSON.stringify] on the callers' messages.
    - [Pool.executeWithSession] is the function the pool hands to its
      [p-queue]; the queue in front of it, which starts that function or
      keeps it waiting, is [Queue].

    Left out: the interceptors that [extractFromBrowser] installs in the
    page (they run in the browser), [createSessionAPI] and
    [sendMessageAPI] beyond their endpoints, the ['message'] listener of
    the stream (it only prints), and the lines of [console.log]. *)

From stdpp Require Import gmap strings list fin_maps pretty.
From Stdlib Require Import ZArith Ascii String.

Local Open Scope string_scope.
Local Open Scope Z_scope.
Local Open Scope list_scope.

(** ** The fragments of the JavaScript runtime the code relies on *)

Module JS.

(** A number that can be [NaN]: the result of [parseInt]. *)
Inductive number : Type :=
| Num (z : Z)
| NaN.

Definition mul (a b : number) : number :=
  match a, b with
  | Num x, Num y => Num (x * y)
  | _, _ => NaN
  end.

Definition sub (a b : number) : number :=
  match a, b with
  | Num x, Num y => Num (x - y)
  | _, _ => NaN
  end.

(** The value of a header read with [headers.get]: [None] stands for
    [null] or [undefined].  [truthy] is the test of [if (value)]. *)
Definition truthy (v : option string) : bool :=
  match v with
  | None => false
  | Some EmptyString => false
  | Some (String _ _) => true
  end.

(** [StrWhiteSpaceChar], for the code points below 128. *)
Definition isWhiteSpace (c : ascii) : bool :=
  let n := N_of_ascii c in
  ((9 <=? n) && (n <=? 13))%N || (n =? 32)%N.

(** The strings on which that is all of [StrWhiteSpaceChar], and on
    which [parseInt] below is the [parseInt] of the language: those of
    code points below 128. *)
Fixpoint isAscii (s : string) : bool :=
  match s with
  | String c s' => (N_of_ascii c <? 128)%N && isAscii s'
  | EmptyString => true
  end.

(** The letters [A] to [Z] and [a] to [z]. *)
Definition isLetter (c : ascii) : bool :=
  let n := N_of_ascii c in
  ((65 <=? n) && (n <=? 90))%N || ((97 <=? n) && (n <=? 122))%N.

Fixpoint trimStart (s : string) : string :=
  match s with
  | String c s' => if isWhiteSpace c then trimStart s' else s
  | EmptyString => EmptyString
  end.

(** The value of [c] as a digit in radix [r] (10 or 16), if it is one. *)
Definition digitValue (r : Z) (c : ascii) : option Z :=
  let n := Z.of_N (N_of_ascii c) in
  let v :=
    if (48 <=? n) && (n <=? 57) then Some (n - 48)
    else if (97 <=? n) && (n <=? 122) then Some (n - 87)
    else if (65 <=? n) && (n <=? 90) then Some (n - 55)
    else None in
  match v with
  | Some d => if d <? r then Some d else None
  | None => None
  end.

(** The longest prefix of radix-[r] digits of [s], read left to right
    with [acc] the value of the digits already seen; [seen] tells
    whether there was at least one. *)
Fixpoint parseDigits (r : Z) (s : string) (seen : bool) (acc : Z) : number :=
  match s with
  | String c s' =>
      match digitValue r c with
      | Some d => parseDigits r s' true (acc * r + d)
      | None => if seen then Num acc else NaN
      end
  | EmptyString => if seen then Num acc else NaN
  end.

(** [parseInt(s)] with no radix argument (ECMA-262, 19.2.5): leading
    white space, a sign, an optional [0x] prefix, then digits.  The white
    space is that of [isWhiteSpace], so this is the function of the
    language on the strings of [isAscii]; the result is the integer the
    digits spell, which the language rounds to a double from 2^53 on. *)
Definition parseInt (s : string) : number :=
  let t := trimStart s in
  let '(sign, t) :=
    match t with
    | String "-" t' => (-1, t')
    | String "+" t' => (1, t')
    | _ => (1, t)
    end in
  let '(radix, t) :=
    match t with
    | String "0" (String "x" t') => (16, t')
    | String "0" (String "X" t') => (16, t')
    | _ => (10, t)
    end in
  match parseDigits radix t false 0 with
  | Num m => Num (sign * m)
  | NaN => NaN
  end.

(** [s.includes(search)]: [search] occurs in [s] as a substring. *)
Fixpoint includes (s search : string) : bool :=
  String.prefix search s
  || match s with
     | String _ s' => includes s' search
     | EmptyString => false
     end.

(** The state of a promise, as an observer sees it. *)
Inductive promise (A : Type) : Type :=
| Fulfilled (a : A)
| Rejected (e : string)
| Pending.
Arguments Fulfilled {A} a.
Arguments Rejected {A} e.
Arguments Pending {A}.

End JS.

(** ** RateLimitHandler *)

Module RateLimit.

Record RateLimitHandler : Type := mkHandler {
  requestCounts : gmap string Z;
  resetTimes : gmap string Z;
  backoffMultiplier : Z
}.

(** [new RateLimitHandler()]. *)
Definition fresh : RateLimitHandler :=
  {| requestCounts := ∅; resetTimes := ∅; backoffMultiplier := 1 |}.

Definition getRateLimit (endpoint : string) : Z :=
  if JS.includes endpoint "/messages" then 30
  else if JS.includes endpoint "/sessions" then 10
  else if JS.includes endpoint "/compile" then 5
  else 50.

(** [map.get(key) || 0]. *)
Definition getOr0 (m : gmap string Z) (key : string) : Z :=
  default 0 (m !! key).

Definition shouldThrottle (now : Z) (endpoint : string)
    (h : RateLimitHandler) : bool * RateLimitHandler :=
  let resetTime := getOr0 (resetTimes h) endpoint in
  let h1 :=
    if resetTime <? now then
      {| requestCounts := <[endpoint := 0]> (requestCounts h);
         resetTimes := <[endpoint := now + 60000]> (resetTimes h);
         backoffMultiplier := backoffMultiplier h |}
    else h in
  let count := getOr0 (requestCounts h1) endpoint in
  let limit := getRateLimit endpoint in
  (limit <=? count, h1).

Definition recordRequest (endpoint : string)
    (h : RateLimitHandler) : RateLimitHandler :=
  let count := getOr0 (requestCounts h) endpoint in
  {| requestCounts := <[endpoint := count + 1]> (requestCounts h);
     resetTimes := resetTimes h;
     backoffMultiplier := backoffMultiplier h |}.

(** The two headers [handleRateLimitResponse] reads off its argument. *)
Record response : Type := mkResponse {
  retryAfter : option string;
  xRateLimitReset : option string
}.

(** The value of [waitTime] before the multiplier is applied. *)
Definition baseWait (r : response) (now : Z) : JS.number :=
  if JS.truthy (retryAfter r) then
    JS.mul (JS.parseInt (default "" (retryAfter r))) (JS.Num 1000)
  else if JS.truthy (xRateLimitReset r) then
    JS.sub (JS.parseInt (default "" (xRateLimitReset r))) (JS.Num now)
  else JS.Num 60000.

(** [handleRateLimitResponse] up to its [await]: the result is the
    [waitTime] handed to [setTimeout]. *)
Definition handleRateLimitResponse_begin (r : response) (now : Z)
    (h : RateLimitHandler) : JS.number * RateLimitHandler :=
  let waitTime := JS.mul (baseWait r now) (JS.Num (backoffMultiplier h)) in
  (waitTime,
   {| requestCounts := requestCounts h;
      resetTimes := resetTimes h;
      backoffMultiplier := Z.min (backoffMultiplier h * 2) 8 |}).

(** [handleRateLimitResponse] from the moment its timer has fired. *)
Definition handleRateLimitResponse_resume
    (h : RateLimitHandler) : RateLimitHandler :=
  {| requestCounts := requestCounts h;
     resetTimes := resetTimes h;
     backoffMultiplier := 1 |}.

(** [await handler.handleRateLimitResponse(r)] with no other call on the
    handler while it sleeps. *)
Definition handleRateLimitResponse (r : response) (now : Z)
    (h : RateLimitHandler) : JS.number * RateLimitHandler :=
  let '(w, h1) := handleRateLimitResponse_begin r now h in
  (w, handleRateLimitResponse_resume h1).

(** [n] calls of [recordRequest(endpoint)] in a row. *)
Definition recordRequests (n : nat) (endpoint : string)
    (h : RateLimitHandler) : RateLimitHandler :=
  Nat.iter n (recordRequest endpoint) h.

(** What a method call can do to the handler, and the states a handler
    created by [new] can be in. *)
Inductive call : Type :=
| CallShouldThrottle (now : Z) (endpoint : string)
| CallRecordRequest (endpoint : string)
| CallHandleBegin (r : response) (now : Z)
| CallHandleResume.

Definition apply_call (c : call) (h : RateLimitHandler) : RateLimitHandler :=
  match c with
  | CallShouldThrottle now e => snd (shouldThrottle now e h)
  | CallRecordRequest e => recordRequest e h
  | CallHandleBegin r now => snd (handleRateLimitResponse_begin r now h)
  | CallHandleResume => handleRateLimitResponse_resume h
  end.

Definition after (cs : list call) : RateLimitHandler :=
  fold_left (fun h c => apply_call c h) cs fresh.

(** What holds of a handler whatever calls were made on it. *)
Definition invariant (h : RateLimitHandler) : Prop :=
  1 <= backoffMultiplier h <= 8
  ∧ ∀ endpoint, 0 <= getOr0 (requestCounts h) endpoint.

End RateLimit.

(** ** ClaudeSessionPool *)

Module Pool.

Import JS.

(** [array.pop()]: the last element and the array without it. *)
Definition pop {A : Type} (l : list A) : option (A * list A) :=
  match last l with
  | Some x => Some (x, removelast l)
  | None => None
  end.

Section WithContext.

(** The type of Playwright's browser contexts, opaque to the pool. *)
Context {BrowserContext : Type}.

Record ClaudeSessionPool : Type := mkPool {
  maxSessions : nat;
  sessions : gmap string BrowserContext;
  availableSessions : list string;
  busySessions : gset string;
  (** the arguments of the ['session-available'] events emitted so far *)
  emitted : list string
}.

(** [new ClaudeSessionPool(maxSessions, _)]. *)
Definition create (n : nat) : ClaudeSessionPool :=
  {| maxSessions := n; sessions := ∅; availableSessions := [];
     busySessions := ∅; emitted := [] |}.

(** [`session-${i}`]. *)
Definition sessionName (i : nat) : string := "session-" +:+ pretty i.

(** One turn of the loop of [initialize]; [context] is what
    [browser.newContext] returned. *)
Definition addSession (p : ClaudeSessionPool) (i : nat)
    (context : BrowserContext) : ClaudeSessionPool :=
  {| maxSessions := maxSessions p;
     sessions := <[sessionName i := context]> (sessions p);
     availableSessions := availableSessions p ++ [sessionName i];
     busySessions := busySessions p;
     emitted := emitted p |}.

(** [initialize(browser)], with [newContext i] the context the browser
    hands out at its [i]-th call. *)
Definition initialize (newContext : nat → BrowserContext)
    (p : ClaudeSessionPool) : ClaudeSessionPool :=
  fold_left (fun q i => addSession q i (newContext i))
            (seq 0 (maxSessions p)) p.

Definition releaseSession (sessionId : string)
    (p : ClaudeSessionPool) : ClaudeSessionPool :=
  {| maxSessions := maxSessions p;
     sessions := sessions p;
     availableSessions := availableSessions p ++ [sessionId];
     busySessions := busySessions p ∖ {[sessionId]};
     emitted := emitted p ++ [sessionId] |}.

(** [closeAll()]; closing the contexts themselves happens outside the
    pool. *)
Definition closeAll (p : ClaudeSessionPool) : ClaudeSessionPool :=
  {| maxSessions := maxSessions p;
     sessions := ∅;
     availableSessions := [];
     busySessions := ∅;
     emitted := emitted p |}.

(** The part of [acquireSession] below its loop, entered when the list
    is not empty: [None] when it is. *)
Definition take (p : ClaudeSessionPool)
    : option ((string * option BrowserContext) * ClaudeSessionPool) :=
  match pop (availableSessions p) with
  | Some (sessionId, rest) =>
      Some ((sessionId, sessions p !! sessionId),
            {| maxSessions := maxSessions p;
               sessions := sessions p;
               availableSessions := rest;
               busySessions := busySessions p ∪ {[sessionId]};
               emitted := emitted p |})
  | None => None
  end.

(** What the other users of the pool do to it while one acquirer
    sleeps: calls of its public methods.  [initialize] awaits the browser
    in each turn of its loop, so a call of it may span several sleeps:
    [Initialize] is a call that runs through within one sleep,
    [InitializeTurn] one turn of the loop of a call that does not. *)
Inductive call : Type :=
| Release (sessionId : string)
| Acquire
| CloseAll
| Initialize (newContext : nat → BrowserContext)
| InitializeTurn (i : nat) (context : BrowserContext).

Definition apply_call (p : ClaudeSessionPool) (c : call) : ClaudeSessionPool :=
  match c with
  | Release sessionId => releaseSession sessionId p
  | Acquire => match take p with Some (_, q) => q | None => p end
  | CloseAll => closeAll p
  | Initialize newContext => initialize newContext p
  | InitializeTurn i context => addSession p i context
  end.

(** Calls that put identities on the available list: [releaseSession]
    and [initialize], the two methods that [push] on it. *)
Definition refills (c : call) : bool :=
  match c with
  | Release _ | Initialize _ | InitializeTurn _ _ => true
  | Acquire | CloseAll => false
  end.

(** [acquireSession()].  The loop tests the list, and sleeps 100 ms when
    it is empty; [others] lists, sleep by sleep, the calls made on the
    pool meanwhile.  When [others] is used up with the list still empty,
    the acquirer is where it was, asleep in its loop: [Pending]. *)
Fixpoint acquireSession (others : list (list call)) (p : ClaudeSessionPool)
    : promise (string * option BrowserContext) * ClaudeSessionPool :=
  match take p with
  | Some (r, q) => (Fulfilled r, q)
  | None =>
      match others with
      | [] => (Pending, p)
      | cs :: others' => acquireSession others' (fold_left apply_call cs p)
      end
  end.

(** An asynchronous computation over the pool: its outcome and the
    pool it leaves. *)
Definition Async (T : Type) : Type :=
  ClaudeSessionPool → promise T * ClaudeSessionPool.

Definition bind {A B : Type} (m : Async A) (k : A → Async B) : Async B :=
  fun p =>
    match m p with
    | (Fulfilled a, q) => k a q
    | (Rejected e, q) => (Rejected e, q)
    | (Pending, q) => (Pending, q)
    end.

(** [try { return await body } finally { cleanup }], for a [cleanup]
    that is synchronous and does not throw. *)
Definition try_finally {A : Type} (body : Async A)
    (cleanup : ClaudeSessionPool → ClaudeSessionPool) : Async A :=
  fun p =>
    match body p with
    | (Fulfilled a, q) => (Fulfilled a, cleanup q)
    | (Rejected e, q) => (Rejected e, cleanup q)
    | (Pending, q) => (Pending, q)
    end.

(** [executeWithSession(task)], from the moment the queue starts the
    function it was given; the queue hands the outcome of that function
    to the promise [executeWithSession] returned.  The pool a task
    leaves is the pool as the other tasks have changed it while this
    one ran.  Whether and when the queue starts the function is
    [Queue.executeWithSession], below. *)
Definition executeWithSession {T : Type} (others : list (list call))
    (task : option BrowserContext → Async T) : Async T :=
  bind (acquireSession others)
       (fun '(sessionId, context) =>
          try_finally (task context) (releaseSession sessionId)).

(** The bookkeeping is sound when no identity is listed twice, none is
    both available and busy, and the two together are the sessions. *)
Definition conserved (p : ClaudeSessionPool) : Prop :=
  NoDup (availableSessions p)
  ∧ Forall (fun id => id ∉ busySessions p) (availableSessions p)
  ∧ list_to_set (availableSessions p) ∪ busySessions p = dom (sessions p).

(** The size of the multiset of available and in-use identities. *)
Definition total (p : ClaudeSessionPool) : nat :=
  List.length (availableSessions p) + size (busySessions p).

End WithContext.

Arguments ClaudeSessionPool : clear implicits.

#[global] Instance conserved_dec {C : Type} (p : ClaudeSessionPool C) :
  Decision (conserved p).
Proof. unfold conserved. apply _. Defined.

(** A pool of two sessions, in which the [i]-th context is [i]. *)
Definition two : ClaudeSessionPool nat := initialize (fun i => i) (create 2).

(** The pool of two sessions after one [acquireSession]. *)
Definition one_busy : ClaudeSessionPool nat := snd (acquireSession [] two).

(** A task body that throws. *)
Definition failing : option nat → Async (BrowserContext := nat) nat :=
  fun _ p => (Rejected "boom", p).

End Pool.

(** ** The queue of the pool *)

Module Queue.

Import JS.

(** The [PQueue] the pool is constructed with, as far as the pool uses
    it.  [p-queue] is a package the repository depends on; this is how
    its documentation describes a queue that is never paused and has no
    interval limit.  [add(fn)] starts [fn] at once while fewer than
    [concurrency] of the functions it has started are unsettled and
    none is waiting; otherwise [fn] waits, unstarted, behind those that
    wait already.  The promise [add] returns settles as [fn] does.
    [pending] counts the functions started and not settled, [size] the
    functions that wait. *)
Record PQueue : Type := mkQueue {
  concurrency : nat;
  pending : nat;
  size : nat
}.

(** [new PQueue({ concurrency })]. *)
Definition fresh (concurrency : nat) : PQueue :=
  {| concurrency := concurrency; pending := 0; size := 0 |}.

(** Whether a function given to [add] now is started now. *)
Definition canStart (q : PQueue) : bool :=
  (size q =? 0)%nat && (pending q <? concurrency q)%nat.

(** The queue when a function it started stays unsettled, and when a
    function has to wait. *)
Definition running (q : PQueue) : PQueue :=
  {| concurrency := concurrency q; pending := S (pending q); size := size q |}.

Definition enqueued (q : PQueue) : PQueue :=
  {| concurrency := concurrency q; pending := pending q; size := S (size q) |}.

Section WithContext.

Context {BrowserContext : Type}.

(** The pool object whole: the fields [Pool.ClaudeSessionPool] holds,
    and the [queue] field. *)
Record QueuedPool : Type := mkQueued {
  pool : Pool.ClaudeSessionPool BrowserContext;
  queue : PQueue
}.

(** [new ClaudeSessionPool(maxSessions, maxConcurrency)]; the defaults
    are 5 and 3, and [PQueue] takes no [concurrency] below 1. *)
Definition create (maxSessions maxConcurrency : nat) : QueuedPool :=
  {| pool := Pool.create maxSessions; queue := fresh maxConcurrency |}.

Definition initialize (newContext : nat → BrowserContext)
    (qp : QueuedPool) : QueuedPool :=
  {| pool := Pool.initialize newContext (pool qp); queue := queue qp |}.

(** [this.queue.add(fn)], for a function [fn] that works on the pool:
    the state of the promise it returns, and the pool and the queue
    then, as this call leaves them.  A function that is started and
    settles leaves the queue as it was: none was waiting to be started
    in its place. *)
Definition add {T : Type} (fn : Pool.Async T) (qp : QueuedPool)
    : promise T * QueuedPool :=
  if canStart (queue qp) then
    match fn (pool qp) with
    | (Pending, p) => (Pending, {| pool := p; queue := running (queue qp) |})
    | (outcome, p) => (outcome, {| pool := p; queue := queue qp |})
    end
  else (Pending, {| pool := pool qp; queue := enqueued (queue qp) |}).

(** [executeWithSession(task)]: the function that acquires, runs the
    task and releases is given to the queue. *)
Definition executeWithSession {T : Type}
    (others : list (list (Pool.call (BrowserContext := BrowserContext))))
    (task : option BrowserContext → Pool.Async T)
    : QueuedPool → promise T * QueuedPool :=
  add (Pool.executeWithSession others task).

End WithContext.

Arguments QueuedPool : clear implicits.

(** The pool of the defaults, five sessions and three tasks at a time,
    initialized, the [i]-th context being [i]. *)
Definition five : QueuedPool nat := initialize (fun i => i) (create 5 3).

End Queue.

(** ** CodeStreamHandler *)

Module Stream.

Inductive ReadyState : Type := CONNECTING | OPEN | CLOSING | CLOSED.

Definition ReadyState_eqb (a b : ReadyState) : bool :=
  match a, b with
  | CONNECTING, CONNECTING | OPEN, OPEN
  | CLOSING, CLOSING | CLOSED, CLOSED => true
  | _, _ => false
  end.

(** A socket made by [new WebSocket(wsUrl, {headers})].  Its four
    listeners are closures over the [sessionId] and [token] that
    [connect] was called with, so the socket carries them.  [written]
    is what [send] was called with on it, oldest first. *)
Record WebSocket : Type := mkSocket {
  url : string;
  authorization : string;
  sessionId : string;
  token : string;
  readyState : ReadyState;
  written : list string
}.

Definition withReadyState (r : ReadyState) (k : WebSocket) : WebSocket :=
  {| url := url k; authorization := authorization k;
     sessionId := sessionId k; token := token k;
     readyState := r; written := written k |}.

(** [socket.send(data)] on a socket that is [OPEN], as seen from the
    handler: a write handed to the transport.  ([ws] writes nothing on a
    socket that is not open, and throws on one that is connecting; the
    properties below speak of [written] for sockets that were open when
    they were written to.) *)
Definition socket_send (data : string) (k : WebSocket) : WebSocket :=
  {| url := url k; authorization := authorization k;
     sessionId := sessionId k; token := token k;
     readyState := readyState k; written := written k ++ [data] |}.

(** [socket.close()]: the closing handshake starts; the ['close'] event
    comes later, from the transport. *)
Definition socket_close (k : WebSocket) : WebSocket :=
  match readyState k with
  | CONNECTING | OPEN => withReadyState CLOSING k
  | CLOSING | CLOSED => k
  end.

(** [Math.min(1000 * Math.pow(2, attempts), 30000)]. *)
Definition reconnectDelay (attempts : nat) : Z :=
  Z.min (1000 * 2 ^ Z.of_nat attempts) 30000.

(** [socket.send] called with each of [ds] in turn. *)
Definition socket_send_all (ds : list string) (k : WebSocket) : WebSocket :=
  fold_left (fun k d => socket_send d k) ds k.

(** The socket [connect(sid, tok)] makes. *)
Definition connecting (sid tok : string) : WebSocket :=
  {| url := "wss://claude.ai/ws/code/" +:+ sid;
     authorization := "Bearer " +:+ tok;
     sessionId := sid; token := tok;
     readyState := CONNECTING; written := [] |}.

(** The two lines the handler writes with [console.error]; the error
    object that follows the second is left out. *)
Definition maxReached : string := "Max reconnection attempts reached".
Definition wsError : string := "WebSocket error:".

Section WithMessages.

(** The messages callers send, and [JSON.stringify] on them. *)
Context {msg : Type} (JSON_stringify : msg → string).

(** The handler's fields, the sockets it has made (a socket that is no
    longer [this.ws] still fires its listeners), the sleeps of
    [reconnect] that have not ended yet, each with the arguments of the
    [connect] that follows it, and the lines of [console.error]. *)
Record CodeStreamHandler : Type := mkStream {
  sockets : list WebSocket;
  ws : option nat;
  messageBuffer : list msg;
  reconnectAttempts : nat;
  sleeping : list (Z * string * string);
  console_error : list string
}.

(** [new CodeStreamHandler()]. *)
Definition fresh : CodeStreamHandler :=
  {| sockets := []; ws := None; messageBuffer := [];
     reconnectAttempts := 0; sleeping := []; console_error := [] |}.

Definition withSockets (l : list WebSocket) (h : CodeStreamHandler)
    : CodeStreamHandler :=
  {| sockets := l; ws := ws h; messageBuffer := messageBuffer h;
     reconnectAttempts := reconnectAttempts h; sleeping := sleeping h;
     console_error := console_error h |}.

Definition withBuffer (b : list msg) (h : CodeStreamHandler)
    : CodeStreamHandler :=
  {| sockets := sockets h; ws := ws h; messageBuffer := b;
     reconnectAttempts := reconnectAttempts h; sleeping := sleeping h;
     console_error := console_error h |}.

Definition withAttempts (n : nat) (h : CodeStreamHandler)
    : CodeStreamHandler :=
  {| sockets := sockets h; ws := ws h; messageBuffer := messageBuffer h;
     reconnectAttempts := n; sleeping := sleeping h;
     console_error := console_error h |}.

Definition withSleeping (l : list (Z * string * string))
    (h : CodeStreamHandler) : CodeStreamHandler :=
  {| sockets := sockets h; ws := ws h; messageBuffer := messageBuffer h;
     reconnectAttempts := reconnectAttempts h; sleeping := l;
     console_error := console_error h |}.

Definition consoleError (line : string) (h : CodeStreamHandler)
    : CodeStreamHandler :=
  {| sockets := sockets h; ws := ws h; messageBuffer := messageBuffer h;
     reconnectAttempts := reconnectAttempts h; sleeping := sleeping h;
     console_error := console_error h ++ [line] |}.

(** The socket [this.ws] points to. *)
Definition current (h : CodeStreamHandler) : option WebSocket :=
  match ws h with
  | Some i => sockets h !! i
  | None => None
  end.

(** [this.ws?.f()] for a method [f] of the socket. *)
Definition onCurrent (f : WebSocket → WebSocket) (h : CodeStreamHandler)
    : CodeStreamHandler :=
  match ws h with
  | Some i => withSockets (alter f i (sockets h)) h
  | None => h
  end.

(** [this.ws?.readyState === WebSocket.OPEN]. *)
Definition isOpen (h : CodeStreamHandler) : bool :=
  match current h with
  | Some k => ReadyState_eqb (readyState k) OPEN
  | None => false
  end.

Definition connect (sid tok : string) (h : CodeStreamHandler)
    : CodeStreamHandler :=
  {| sockets := sockets h ++ [connecting sid tok];
     ws := Some (List.length (sockets h));
     messageBuffer := messageBuffer h;
     reconnectAttempts := reconnectAttempts h;
     sleeping := sleeping h;
     console_error := console_error h |}.

(** [reconnect], up to its [await]: what follows the sleep is [wake]. *)
Definition reconnect (sid tok : string) (h : CodeStreamHandler)
    : CodeStreamHandler :=
  if (5 <=? reconnectAttempts h)%nat then consoleError maxReached h
  else
    let attempts := S (reconnectAttempts h) in
    let delay := reconnectDelay attempts in
    withSleeping (sleeping h ++ [(delay, sid, tok)])
                 (withAttempts attempts h).

(** The [n]-th pending sleep ends: [reconnect] goes on with its
    [connect]. *)
Definition wake (n : nat) (h : CodeStreamHandler) : CodeStreamHandler :=
  match sleeping h !! n with
  | Some (_, sid, tok) => connect sid tok (withSleeping (delete n (sleeping h)) h)
  | None => h
  end.

(** The loop of [flushMessageBuffer], for at most [n] turns. *)
Fixpoint flushLoop (n : nat) (h : CodeStreamHandler) : CodeStreamHandler :=
  match n with
  | O => h
  | S n' =>
      match messageBuffer h with
      | [] => h
      | message :: rest =>
          flushLoop n'
            (onCurrent (socket_send (JSON_stringify message))
                       (withBuffer rest h))
      end
  end.

(** Each turn takes one message off the buffer, so as many turns as
    there are messages end the loop. *)
Definition flushMessageBuffer (h : CodeStreamHandler) : CodeStreamHandler :=
  flushLoop (List.length (messageBuffer h)) h.

Definition send (message : msg) (h : CodeStreamHandler)
    : CodeStreamHandler :=
  if isOpen h then onCurrent (socket_send (JSON_stringify message)) h
  else withBuffer (messageBuffer h ++ [message]) h.

Definition close (h : CodeStreamHandler) : CodeStreamHandler :=
  onCurrent socket_close h.

(** The listeners [connect] registers on a socket.  The transport has
    set the socket's [readyState] when it fires ['open'] or ['close']. *)
Definition onOpen (h : CodeStreamHandler) : CodeStreamHandler :=
  flushMessageBuffer (withAttempts 0 h).

Definition onError (k : WebSocket) (h : CodeStreamHandler)
    : CodeStreamHandler :=
  reconnect (sessionId k) (token k) (consoleError wsError h).

Definition onClose (k : WebSocket) (h : CodeStreamHandler)
    : CodeStreamHandler :=
  reconnect (sessionId k) (token k) h.

(** What happens to a handler: calls of its public methods, events of
    the sockets it has made, and the ends of its sleeps. *)
Inductive event : Type :=
| Connect (sid tok : string)
| Send (message : msg)
| Close
| WsOpen (i : nat)
| WsError (i : nat)
| WsClose (i : nat)
| Wake (n : nat).

Definition step (h : CodeStreamHandler) (e : event) : CodeStreamHandler :=
  match e with
  | Connect sid tok => connect sid tok h
  | Send message => send message h
  | Close => close h
  | WsOpen i =>
      match sockets h !! i with
      | Some _ => onOpen (withSockets (alter (withReadyState OPEN) i (sockets h)) h)
      | None => h
      end
  | WsError i =>
      match sockets h !! i with
      | Some k => onError k h
      | None => h
      end
  | WsClose i =>
      match sockets h !! i with
      | Some k => onClose k (withSockets (alter (withReadyState CLOSED) i (sockets h)) h)
      | None => h
      end
  | Wake n => wake n h
  end.

Definition run (es : list event) (h : CodeStreamHandler) : CodeStreamHandler :=
  fold_left step es h.

(** Everything written to any socket so far. *)
Definition transportWrites (h : CodeStreamHandler) : list string :=
  List.concat (map written (sockets h)).

(** How many times the terminal failure has been reported. *)
Definition terminalReports (h : CodeStreamHandler) : nat :=
  List.length (filter (fun line => line = maxReached) (console_error h)).

End WithMessages.

Arguments CodeStreamHandler : clear implicits.
Arguments fresh {msg}.

(** Concrete runs: the messages are numbers, which [JSON.stringify]
    writes in decimal. *)
Definition stringifyNat : nat → string := pretty.

(** A handler on which [connect("s", "t")] was called. *)
Definition connected : CodeStreamHandler nat := connect "s" "t" fresh.

(** Five connections fail in a row, each with an ['error'] event after
    which the handler sleeps and connects again. *)
Definition fiveErrors : list (event (msg := nat)) :=
  [Connect "s" "t"; WsError 0; Wake 0; WsError 1; Wake 0; WsError 2; Wake 0;
   WsError 3; Wake 0; WsError 4; Wake 0]%nat.

(** A stream that was connected and has opened. *)
Definition opened : CodeStreamHandler nat :=
  run stringifyNat [Connect "s" "t"; WsOpen 0%nat] fresh.

End Stream.

(** ** ClaudeCodeAPIExtractor *)

Module Extractor.

Import JS.

(** [a || b], for values that are a string or [null]. *)
Definition orElse (a b : option string) : option string :=
  if truthy a then a else b.

(** [value || ''] *)
Definition orEmpty (v : option string) : string :=
  if truthy v then default "" v else "".

(** What the script of [extractAuthDetails] returns from the page, as far
    as the extractor reads it. *)
Record AuthData : Type := mkAuthData {
  token : option string;
  sessionOrganizationId : option string;
  sessionWorkspaceId : option string
}.

(** The script itself, run on the page's [localStorage] and
    [sessionStorage]; [getItem] gives [null] for a missing key. *)
Definition evaluateAuth (localStorage sessionStorage : gmap string string)
    : AuthData :=
  {| token :=
       orElse (orElse (localStorage !! "claude_session_token")
                      (localStorage !! "auth_token"))
              (localStorage !! "access_token");
     sessionOrganizationId := sessionStorage !! "organization_id";
     sessionWorkspaceId := sessionStorage !! "workspace_id" |}.

Record ClaudeCodeAPIExtractor : Type := mkExtractor {
  sessionToken : option string;
  authHeaders : gmap string string;
  organizationId : option string
}.

(** [new ClaudeCodeAPIExtractor()]. *)
Definition fresh : ClaudeCodeAPIExtractor :=
  {| sessionToken := None; authHeaders := ∅; organizationId := None |}.

Definition hasSessionToken (x : ClaudeCodeAPIExtractor) : bool :=
  truthy (sessionToken x).

(** [extractAuthDetails], from the moment [page.evaluate] has returned
    [authData]. *)
Definition extractAuthDetails (authData : AuthData)
    (x : ClaudeCodeAPIExtractor) : ClaudeCodeAPIExtractor :=
  let x1 :=
    if truthy (token authData) then
      {| sessionToken := token authData;
         authHeaders :=
           <["Authorization" := "Bearer " +:+ default "" (token authData)]>
             (<["X-Organization-Id" := orEmpty (sessionOrganizationId authData)]>
                (<["X-Workspace-Id" := orEmpty (sessionWorkspaceId authData)]> ∅));
         organizationId := organizationId x |}
    else x in
  {| sessionToken := sessionToken x1;
     authHeaders := authHeaders x1;
     organizationId := orElse (sessionOrganizationId authData) None |}.

(** A Playwright page, as far as the extractor and the proxy use it:
    what its methods come back with.  [addInitScript i] is the [i]-th
    call of [page.addInitScript], [evaluate] the call of [page.evaluate]
    with the script of [extractAuthDetails], [close] is [page.close()]. *)
Record Page : Type := mkPage {
  addInitScript : nat → promise unit;
  evaluate : promise AuthData;
  close : promise unit
}.

(** [extractFromBrowser(page)]: the two interceptors are installed, one
    after the other, then [extractAuthDetails] evaluates its script and
    stores what it finds.  A step that rejects ends the method there,
    with the extractor as it was. *)
Definition extractFromBrowser (page : Page) (x : ClaudeCodeAPIExtractor)
    : promise unit * ClaudeCodeAPIExtractor :=
  match addInitScript page 0 with
  | Fulfilled _ =>
      match addInitScript page 1 with
      | Fulfilled _ =>
          match evaluate page with
          | Fulfilled authData =>
              (Fulfilled tt, extractAuthDetails authData x)
          | Rejected e => (Rejected e, x)
          | Pending => (Pending, x)
          end
      | Rejected e => (Rejected e, x)
      | Pending => (Pending, x)
      end
  | Rejected e => (Rejected e, x)
  | Pending => (Pending, x)
  end.

(** The [options] argument of [makeAPIRequest], and what it passes to
    [fetch]. *)
Record Options : Type := mkOptions {
  optMethod : option string;
  optBody : option string;
  optHeaders : gmap string string
}.

Record Request : Type := mkRequest {
  url : string;
  method : option string;
  body : option string;
  headers : gmap string string
}.

Definition userAgent : string :=
  "Mozilla/5.0 (Windows NT 10.0; Win64; x64) AppleWebKit/537.36".

(** The object spreads of [makeAPIRequest]: a later entry replaces an
    earlier one with the same key. *)
Definition buildRequest (endpoint : string) (options : Options)
    (x : ClaudeCodeAPIExtractor) : Request :=
  {| url := "https://api.claude.ai" +:+ endpoint;
     method := optMethod options;
     body := optBody options;
     headers :=
       optHeaders options
       ∪ <["User-Agent" := userAgent]>
           (<["Content-Type" := "application/json"]> (authHeaders x)) |}.

(** What [fetch] comes back with: a response, whose [json()] settles one
    way or the other, or a failure of the network. *)
Record Response (J : Type) : Type := mkResponse {
  ok : bool;
  status : nat;
  statusText : string;
  json : promise J
}.
Arguments ok {J} _.
Arguments status {J} _.
Arguments statusText {J} _.
Arguments json {J} _.

Inductive fetched (J : Type) : Type :=
| Responded (r : Response J)
| NetworkError (e : string).
Arguments Responded {J} r.
Arguments NetworkError {J} e.

(** [makeAPIRequest], with [fetch] the server and the network. *)
Definition makeAPIRequest {J : Type} (fetch : Request → fetched J)
    (endpoint : string) (options : Options) (x : ClaudeCodeAPIExtractor)
    : promise J :=
  match fetch (buildRequest endpoint options x) with
  | NetworkError e => Rejected e
  | Responded r =>
      if ok r then json r
      else Rejected ("API request failed: " +:+ pretty (status r)
                     +:+ " " +:+ statusText r)
  end.

(** The endpoints of [createSessionAPI] and of [sendMessageAPI]. *)
Definition sessionsEndpoint : string := "/v1/code/sessions".

Definition messagesEndpoint (sessionId : string) : string :=
  "/v1/code/sessions/" +:+ sessionId +:+ "/messages".

End Extractor.

(** ** ClaudeCodeProxy *)

Module Proxy.

Import JS.

Section WithTypes.

(** Browser contexts, the values the API answers with, and the message of
    the [TypeError] a method call on [undefined] raises. *)
Context {BrowserContext J : Type} (typeError : string).

Record ClaudeCodeProxy : Type := mkProxy {
  sessionPool : Queue.QueuedPool BrowserContext;
  rateLimiter : RateLimit.RateLimitHandler;
  apiExtractor : Extractor.ClaudeCodeAPIExtractor
}.

(** [new ClaudeCodeProxy()] and [initialize(browser)]. *)
Definition create : ClaudeCodeProxy :=
  {| sessionPool := Queue.create 10 5;
     rateLimiter := RateLimit.fresh;
     apiExtractor := Extractor.fresh |}.

Definition initialize (newContext : nat → BrowserContext)
    (px : ClaudeCodeProxy) : ClaudeCodeProxy :=
  {| sessionPool := Queue.initialize newContext (sessionPool px);
     rateLimiter := rateLimiter px;
     apiExtractor := apiExtractor px |}.

(** What one call of [request] meets: the clock, the other users of the
    pool while it waits for a session, the page each context opens, and
    the server. *)
Record world : Type := mkWorld {
  now : Z;
  others : list (list (Pool.call (BrowserContext := BrowserContext)));
  newPage : BrowserContext → promise Extractor.Page;
  fetch : Extractor.Request → Extractor.fetched J
}.

(** [{ headers: new Map([['Retry-After', '60']]) }]. *)
Definition throttled : RateLimit.response :=
  {| RateLimit.retryAfter := Some "60"; RateLimit.xRateLimitReset := None |}.

(** The head of [request]: the wait, if there is one, and the limiter
    after it. *)
Definition throttleGate (w : world) (endpoint : string)
    (rl : RateLimit.RateLimitHandler)
    : option number * RateLimit.RateLimitHandler :=
  let '(throttle, rl1) := RateLimit.shouldThrottle (now w) endpoint rl in
  if throttle then
    let '(waitTime, rl2) :=
      RateLimit.handleRateLimitResponse throttled (now w) rl1 in
    (Some waitTime, rl2)
  else (None, rl1).

(** The [try] block of the function [request] gives to
    [executeWithSession], as it acts on the limiter and the extractor:
    the extraction, if the extractor has no token, then the API call,
    then the record of it. *)
Definition attempt (w : world) (endpoint : string)
    (options : Extractor.Options) (page : Extractor.Page)
    (st : RateLimit.RateLimitHandler * Extractor.ClaudeCodeAPIExtractor)
    : promise J * (RateLimit.RateLimitHandler * Extractor.ClaudeCodeAPIExtractor) :=
  let '(extracted, x) :=
    if Extractor.hasSessionToken (snd st) then (Fulfilled tt, snd st)
    else Extractor.extractFromBrowser page (snd st) in
  match extracted with
  | Fulfilled _ =>
      match Extractor.makeAPIRequest (fetch w) endpoint options x with
      | Fulfilled response =>
          (Fulfilled response, (RateLimit.recordRequest endpoint (fst st), x))
      | Rejected e => (Rejected e, (fst st, x))
      | Pending => (Pending, (fst st, x))
      end
  | Rejected e => (Rejected e, (fst st, x))
  | Pending => (Pending, (fst st, x))
  end.

(** [try { body } finally { await page.close() }]: once the body has
    settled the page is closed, and a [close] that does not resolve
    takes the place of the body's outcome. *)
Definition finallyClose {A : Type} (body : promise A) (closed : promise unit)
    : promise A :=
  match body with
  | Pending => Pending
  | _ =>
      match closed with
      | Fulfilled _ => body
      | Rejected e => Rejected e
      | Pending => Pending
      end
  end.

(** The function [request] gives to [executeWithSession].  The pool
    gives it [undefined] for a context when it has none for the session,
    and [newPage] on that throws. *)
Definition task (w : world) (endpoint : string) (options : Extractor.Options)
    (context : option BrowserContext)
    (st : RateLimit.RateLimitHandler * Extractor.ClaudeCodeAPIExtractor)
    : promise J * (RateLimit.RateLimitHandler * Extractor.ClaudeCodeAPIExtractor) :=
  match context with
  | None => (Rejected typeError, st)
  | Some c =>
      match newPage w c with
      | Fulfilled page =>
          let '(outcome, st') := attempt w endpoint options page st in
          (finallyClose outcome (Extractor.close page), st')
      | Rejected e => (Rejected e, st)
      | Pending => (Pending, st)
      end
  end.

(** The session the function of [request] is run with, if the queue
    starts it and the pool comes to hand it one. *)
Definition session (w : world) (px : ClaudeCodeProxy)
    : option (string * option BrowserContext) :=
  if Queue.canStart (Queue.queue (sessionPool px)) then
    match fst (Pool.acquireSession (others w) (Queue.pool (sessionPool px))) with
    | Fulfilled r => Some r
    | _ => None
    end
  else None.

(** [request(endpoint, options)], alone on the limiter and the extractor:
    the wait it made, its outcome, and the proxy it leaves. *)
Definition request (w : world) (endpoint : string) (options : Extractor.Options)
    (px : ClaudeCodeProxy) : (option number * promise J) * ClaudeCodeProxy :=
  let '(waited, rl) := throttleGate w endpoint (rateLimiter px) in
  let st := (rl, apiExtractor px) in
  let '(outcome, pool) :=
    Queue.executeWithSession (others w)
      (fun context p => (fst (task w endpoint options context st), p))
      (sessionPool px) in
  let st' :=
    match session w px with
    | Some (_, context) => snd (task w endpoint options context st)
    | None => st
    end in
  ((waited, outcome),
   {| sessionPool := pool; rateLimiter := fst st'; apiExtractor := snd st' |}).

End WithTypes.

Arguments ClaudeCodeProxy : clear implicits.
Arguments world : clear implicits.

End Proxy.

(** ** Sequences of calls *)

Module Runs.

Import JS.

(** [n] calls of [handleRateLimitResponse] of which none has finished
    its wait: the multiplier they leave. *)
Definition overlapping (n : nat) (r : RateLimit.response) (now : Z)
    (h : RateLimit.RateLimitHandler) : RateLimit.RateLimitHandler :=
  Nat.iter n (fun h => snd (RateLimit.handleRateLimitResponse_begin r now h)) h.

(** Up to [k] calls of [acquireSession] in a row that find a session at
    once: the identities they return, in order, and the pool left. *)
Fixpoint acquireMany {C : Type} (k : nat) (p : Pool.ClaudeSessionPool C)
    : list string * Pool.ClaudeSessionPool C :=
  match k with
  | O => ([], p)
  | S k' =>
      match Pool.take p with
      | Some ((sessionId, _), q) =>
          let '(ids, r) := acquireMany k' q in (sessionId :: ids, r)
      | None => ([], p)
      end
  end.

(** A task body that leaves the pool alone and ends with [outcome]. *)
Definition settles {C T : Type} (outcome : promise T)
    : option C → Pool.Async (BrowserContext := C) T :=
  fun _ p => (outcome, p).

(** [n] calls of [executeWithSession] in a row, each with a task that
    never settles: the pool and the queue they leave. *)
Definition stuck {C : Type} (n : nat) (qp : Queue.QueuedPool C)
    : Queue.QueuedPool C :=
  Nat.iter n
    (fun qp => snd (Queue.executeWithSession (T := unit) []
                      (settles Pending) qp))
    qp.

(** Events of a stream other than a send or an open. *)
Definition quiet {msg : Type} (e : Stream.event (msg := msg)) : bool :=
  match e with
  | Stream.Send _ | Stream.WsOpen _ => false
  | _ => true
  end.

Definition isOpenEvent {msg : Type} (e : Stream.event (msg := msg)) : bool :=
  match e with Stream.WsOpen _ => true | _ => false end.

Definition isConnect {msg : Type} (e : Stream.event (msg := msg)) : bool :=
  match e with Stream.Connect _ _ => true | _ => false end.

(** How many sockets the handler has made or is about to make. *)
Definition connections {msg : Type} (h : Stream.CodeStreamHandler msg) : nat :=
  List.length (Stream.sockets h) + List.length (Stream.sleeping h).

(** A handler with two messages in its buffer, on which [connect] was
    called. *)
Definition waiting : Stream.CodeStreamHandler nat :=
  Stream.run Stream.stringifyNat [Stream.Send 1; Stream.Send 2]%nat
    Stream.connected.

(** A proxy after [initialize], its ten contexts numbered, and the same
    with a limiter in which ["/compile"] has reached its limit in a
    window opened at time 1000. *)
Definition proxy10 : Proxy.ClaudeCodeProxy nat :=
  Proxy.initialize (fun i => i) Proxy.create.

Definition proxy10_full : Proxy.ClaudeCodeProxy nat :=
  {| Proxy.sessionPool := Proxy.sessionPool proxy10;
     Proxy.rateLimiter :=
       RateLimit.recordRequests 5 "/compile"
         (snd (RateLimit.shouldThrottle 1000 "/compile" RateLimit.fresh));
     Proxy.apiExtractor := Proxy.apiExtractor proxy10 |}.

(** What the script finds on a page that holds the token ["abc"]; such a
    page, on which every call resolves; the same page when its [close]
    fails; and a page on which the script cannot be evaluated. *)
Definition authData : Extractor.AuthData :=
  {| Extractor.token := Some "abc";
     Extractor.sessionOrganizationId := Some "org";
     Extractor.sessionWorkspaceId := None |}.

Definition page : Extractor.Page :=
  {| Extractor.addInitScript := fun _ => Fulfilled tt;
     Extractor.evaluate := Fulfilled authData;
     Extractor.close := Fulfilled tt |}.

Definition unclosable : Extractor.Page :=
  {| Extractor.addInitScript := fun _ => Fulfilled tt;
     Extractor.evaluate := Fulfilled authData;
     Extractor.close := Rejected "Target closed" |}.

Definition crashed : Extractor.Page :=
  {| Extractor.addInitScript := fun _ => Fulfilled tt;
     Extractor.evaluate := Rejected "Execution context was destroyed";
     Extractor.close := Fulfilled tt |}.

(** Two servers: one that answers every request with 7, one that
    answers 429. *)
Definition ok7 : Extractor.Request → Extractor.fetched nat :=
  fun _ =>
    Extractor.Responded
      {| Extractor.ok := true; Extractor.status := 200;
         Extractor.statusText := "OK";
         Extractor.json := Fulfilled 7%nat |}.

Definition tooMany : Extractor.Request → Extractor.fetched nat :=
  fun _ =>
    Extractor.Responded
      {| Extractor.ok := false; Extractor.status := 429;
         Extractor.statusText := "Too Many Requests";
         Extractor.json := Fulfilled 7%nat |}.

Definition answering : Proxy.world nat nat :=
  {| Proxy.now := 2000; Proxy.others := [];
     Proxy.newPage := fun _ => Fulfilled page; Proxy.fetch := ok7 |}.

Definition refusing : Proxy.world nat nat :=
  {| Proxy.now := 2000; Proxy.others := [];
     Proxy.newPage := fun _ => Fulfilled page; Proxy.fetch := tooMany |}.

(** The answering server behind a page that does not close, and behind
    a page that has crashed. *)
Definition unclosing : Proxy.world nat nat :=
  {| Proxy.now := 2000; Proxy.others := [];
     Proxy.newPage := fun _ => Fulfilled unclosable; Proxy.fetch := ok7 |}.

Definition crashing : Proxy.world nat nat :=
  {| Proxy.now := 2000; Proxy.others := [];
     Proxy.newPage := fun _ => Fulfilled crashed; Proxy.fetch := ok7 |}.

(** [proxy10] with five requests under way that have not settled. *)
Definition proxy10_busy : Proxy.ClaudeCodeProxy nat :=
  {| Proxy.sessionPool := stuck 5 (Proxy.sessionPool proxy10);
     Proxy.rateLimiter := Proxy.rateLimiter proxy10;
     Proxy.apiExtractor := Proxy.apiExtractor proxy10 |}.

Definition noOptions : Extractor.Options :=
  {| Extractor.optMethod := None; Extractor.optBody := None;
     Extractor.optHeaders := ∅ |}.

End Runs.

(** * Properties *)

(** ** The rate limiter *)

Module RateLimitSpec.

Import JS RateLimit.

Lemma getOr0_insert (m : gmap string Z) (k k' : string) (v : Z) :
  getOr0 (<[k := v]> m) k' = if decide (k = k') then v else getOr0 m k'.
Proof.
  unfold getOr0. rewrite lookup_insert. by case_decide.
Qed.

Lemma getOr0_insert_eq (m : gmap string Z) (k : string) (v : Z) :
  getOr0 (<[k := v]> m) k = v.
Proof. rewrite getOr0_insert. by case_decide. Qed.

Lemma getRateLimit_pos endpoint : 0 < getRateLimit endpoint.
Proof. unfold getRateLimit. repeat case_match; lia. Qed.

Lemma invariant_fresh : invariant fresh.
Proof. split; [simpl; lia | intros e; reflexivity]. Qed.

Lemma invariant_apply_call c h : invariant h → invariant (apply_call c h).
Proof.
  intros [Hm Hc]. destruct c as [now e | e | r now | ]; cbn [apply_call].
  - unfold shouldThrottle. case_match; cbn [snd]; [|by split].
    split; [done|]. intros e'. cbn [requestCounts].
    rewrite getOr0_insert. case_decide; [lia | apply Hc].
  - split; [done|]. intros e'. cbn [recordRequest requestCounts].
    rewrite getOr0_insert.
    case_decide; [specialize (Hc e); lia | apply Hc].
  - split; [cbn; lia | done].
  - split; [cbn; lia | done].
Qed.

Lemma invariant_after cs : invariant (after cs).
Proof.
  unfold after. generalize invariant_fresh. generalize fresh.
  induction cs as [|c cs IH]; intros h Hh; simpl; [done|].
  apply IH. by apply invariant_apply_call.
Qed.

Lemma recordRequests_count n endpoint h :
  getOr0 (requestCounts (recordRequests n endpoint h)) endpoint
  = getOr0 (requestCounts h) endpoint + Z.of_nat n.
Proof.
  induction n as [|n IH]; [simpl; lia|].
  unfold recordRequests in *. rewrite Nat.iter_succ.
  cbn [recordRequest requestCounts]. rewrite getOr0_insert_eq, IH. lia.
Qed.

Lemma recordRequests_resetTimes n endpoint h :
  resetTimes (recordRequests n endpoint h) = resetTimes h.
Proof.
  induction n as [|n IH]; [done|].
  unfold recordRequests in *. by rewrite Nat.iter_succ.
Qed.

Lemma recordRequests_multiplier n endpoint h :
  backoffMultiplier (recordRequests n endpoint h) = backoffMultiplier h.
Proof.
  induction n as [|n IH]; [done|].
  unfold recordRequests in *. by rewrite Nat.iter_succ.
Qed.

(** Inside the window [shouldThrottle] compares the count with the
    limit and changes nothing. *)
Lemma shouldThrottle_inside now endpoint h :
  now <= getOr0 (resetTimes h) endpoint →
  shouldThrottle now endpoint h
  = (getRateLimit endpoint <=? getOr0 (requestCounts h) endpoint, h).
Proof.
  intros H. unfold shouldThrottle.
  by destruct (Z.ltb_spec (getOr0 (resetTimes h) endpoint) now); [lia|].
Qed.

(** Past the window it opens a new one, with count zero, and lets the
    request through. *)
Lemma shouldThrottle_expired now endpoint h :
  getOr0 (resetTimes h) endpoint < now →
  fst (shouldThrottle now endpoint h) = false
  ∧ getOr0 (requestCounts (snd (shouldThrottle now endpoint h))) endpoint = 0
  ∧ getOr0 (resetTimes (snd (shouldThrottle now endpoint h))) endpoint
    = now + 60000.
Proof.
  intros H. unfold shouldThrottle.
  destruct (Z.ltb_spec (getOr0 (resetTimes h) endpoint) now); [|lia].
  cbn [fst snd requestCounts resetTimes]. rewrite !getOr0_insert_eq.
  split; [|done]. apply Z.leb_gt, getRateLimit_pos.
Qed.

(** The window that is open after a call of [shouldThrottle] at [now]
    ends at [now] or later. *)
Lemma shouldThrottle_window now endpoint h :
  now <= getOr0 (resetTimes (snd (shouldThrottle now endpoint h))) endpoint.
Proof.
  unfold shouldThrottle.
  destruct (Z.ltb_spec (getOr0 (resetTimes h) endpoint) now);
    cbn [snd resetTimes]; [rewrite getOr0_insert_eq|]; lia.
Qed.

(** C2, as stated, fails.  On a handler just created, five recorded
    requests for an endpoint of limit five do not make [shouldThrottle]
    answer [true]: no window is open yet, so the call opens one and
    clears the count.  And [recordRequest] makes no expiry check: in a
    window that ended at 61000 it adds to the old count, and leaves the
    end of the window where it was. *)
Lemma rate_window_fresh_not_throttled :
  getRateLimit "/compile" = 5
  ∧ fst (shouldThrottle 1000 "/compile"
           (recordRequests 5 "/compile" fresh)) = false
  ∧ (let h0 := snd (shouldThrottle 1000 "/compile" fresh) in
     let h1 := recordRequests 5 "/compile" h0 in
     getOr0 (resetTimes h1) "/compile" = 61000
     ∧ getOr0 (requestCounts (recordRequest "/compile" h1)) "/compile" = 6
     ∧ getOr0 (resetTimes (recordRequest "/compile" h1)) "/compile" = 61000).
Proof. by vm_compute. Qed.

(** C2, amended.  Take a handler in any state it can reach, an endpoint
    of limit [L], and a call of [shouldThrottle] on it at [now0]; the
    window then open ends at [T], which is [now0 + 60000] when the call
    opened it.  After [L] calls of [recordRequest], [shouldThrottle]
    answers [true] at every time up to [T] included; at every later time
    it answers [false], whatever number of requests was recorded, with
    no call other than itself.  [recordRequest] adds one to the count,
    at whatever time it is called, and leaves the end of the window as it
    is: the expiry check is in [shouldThrottle] alone. *)
Theorem rate_window_reset (cs : list call) (endpoint : string) (now0 : Z) :
  let h0 := snd (shouldThrottle now0 endpoint (after cs)) in
  let T := getOr0 (resetTimes h0) endpoint in
  let L := Z.to_nat (getRateLimit endpoint) in
  (getOr0 (resetTimes (after cs)) endpoint < now0 → T = now0 + 60000)
  ∧ (∀ now, now <= T →
       fst (shouldThrottle now endpoint (recordRequests L endpoint h0)) = true)
  ∧ (∀ now n, T < now →
       fst (shouldThrottle now endpoint (recordRequests n endpoint h0)) = false)
  ∧ (∀ h, resetTimes (recordRequest endpoint h) = resetTimes h
          ∧ getOr0 (requestCounts (recordRequest endpoint h)) endpoint
            = getOr0 (requestCounts h) endpoint + 1).
Proof.
  intros h0 T L. split; [|split; [|split; [|split]]].
  - intros H. apply (shouldThrottle_expired now0 endpoint (after cs) H).
  - intros now Hnow. rewrite shouldThrottle_inside
      by (by rewrite recordRequests_resetTimes).
    cbn [fst]. rewrite recordRequests_count. apply Z.leb_le.
    assert (0 <= getOr0 (requestCounts h0) endpoint) as Hc.
    { apply (invariant_apply_call (CallShouldThrottle now0 endpoint)),
        invariant_after. }
    pose proof (getRateLimit_pos endpoint). subst L. lia.
  - intros now n Hnow. apply shouldThrottle_expired.
    by rewrite recordRequests_resetTimes.
  - done.
  - cbn [recordRequest requestCounts]. apply getOr0_insert_eq.
Qed.

Lemma rate_window_reset_witness :
  let h0 := snd (shouldThrottle 1000 "/compile" (after [])) in
  getOr0 (resetTimes h0) "/compile" = 1000 + 60000
  ∧ fst (shouldThrottle 61000 "/compile"
           (recordRequests 5 "/compile" h0)) = true
  ∧ fst (shouldThrottle 61001 "/compile"
           (recordRequests 5 "/compile" h0)) = false.
Proof.
  pose proof (rate_window_reset [] "/compile" 1000) as (H0 & H1 & H2 & _).
  split; [apply H0; by vm_compute|]. split.
  - apply (H1 61000). by vm_compute.
  - apply (H2 61001 5%nat). by vm_compute.
Defined.

(** The multiplier a call leaves for the next one. *)
Lemma begin_multiplier r now h :
  backoffMultiplier (snd (handleRateLimitResponse_begin r now h))
  = Z.min (backoffMultiplier h * 2) 8.
Proof. reflexivity. Qed.

Lemma begin_wait r now h b :
  baseWait r now = Num b →
  fst (handleRateLimitResponse_begin r now h) = Num (b * backoffMultiplier h).
Proof. intros H. unfold handleRateLimitResponse_begin. by rewrite H. Qed.

(** A call that was awaited leaves the multiplier at 1. *)
Lemma awaited_call_resets r now h :
  backoffMultiplier (snd (handleRateLimitResponse r now h)) = 1.
Proof. reflexivity. Qed.




Lemma parseInt_empty : parseInt "" = NaN.
Proof. reflexivity. Qed.

(** C10.  When [Retry-After] is absent (or empty) and [X-RateLimit-Reset]
    holds a timestamp [reset] that is earlier than [Date.now()], the wait
    is [reset - now], and what is handed to [setTimeout] is that
    difference times the multiplier: a negative number, in every state
    the handler can be in.  Nothing clamps it to zero. *)
Theorem past_reset_gives_negative_wait (cs : list call) (r : response)
    (s : string) (reset now : Z) :
  truthy (retryAfter r) = false →
  xRateLimitReset r = Some s →
  parseInt s = Num reset →
  reset < now →
  baseWait r now = Num (reset - now)
  ∧ fst (handleRateLimitResponse_begin r now (after cs))
    = Num ((reset - now) * backoffMultiplier (after cs))
  ∧ (reset - now) * backoffMultiplier (after cs) < 0.
Proof.
  intros Hretry Hreset Hparse Hlt.
  assert (baseWait r now = Num (reset - now)) as Hbase.
  { unfold baseWait. rewrite Hretry, Hreset.
    destruct s as [|c s']; [by rewrite parseInt_empty in Hparse|].
    cbn [truthy from_option id]. by rewrite Hparse. }
  split; [done|]. split; [by apply begin_wait|].
  destruct (invariant_after cs) as [Hm _]. nia.
Qed.

Lemma past_reset_gives_negative_wait_witness :
  fst (handleRateLimitResponse_begin
         {| retryAfter := None; xRateLimitReset := Some "1000" |}
         5000 (after []))
  = Num ((1000 - 5000) * backoffMultiplier (after []))
  ∧ (1000 - 5000) * backoffMultiplier (after []) < 0.
Proof.
  exact (proj2 (past_reset_gives_negative_wait []
           {| retryAfter := None; xRateLimitReset := Some "1000" |}
           "1000" 1000 5000 eq_refl eq_refl eq_refl eq_refl)).
Defined.

End RateLimitSpec.

(** ** The session pool *)

Module PoolSpec.

Import JS Pool.

Section Facts.

Context {BrowserContext : Type}.
Implicit Types p q : ClaudeSessionPool BrowserContext.

Lemma pop_snoc {A : Type} (l : list A) (x : A) : pop (l ++ [x]) = Some (x, l).
Proof. unfold pop. by rewrite last_snoc, removelast_last. Qed.

Lemma pop_nil {A : Type} : pop (@nil A) = None.
Proof. reflexivity. Qed.

Lemma pop_Some {A : Type} (l rest : list A) (x : A) :
  pop l = Some (x, rest) → l = rest ++ [x].
Proof.
  destruct l as [|y l] using rev_ind; [done|].
  rewrite pop_snoc. by intros [= -> ->].
Qed.

Lemma take_release id p :
  take (releaseSession id p)
  = Some ((id, sessions p !! id),
          {| maxSessions := maxSessions p;
             sessions := sessions p;
             availableSessions := availableSessions p;
             busySessions := busySessions p ∖ {[id]} ∪ {[id]};
             emitted := emitted p ++ [id] |}).
Proof.
  unfold take. cbn [releaseSession availableSessions].
  by rewrite pop_snoc.
Qed.

Lemma take_empty p : availableSessions p = [] → take p = None.
Proof. unfold take. by intros ->. Qed.

(** [acquireSession] has no way to fail. *)
Lemma acquire_never_rejects others p e :
  fst (acquireSession others p) ≠ Rejected e.
Proof.
  revert p. induction others as [|cs others IH]; intros p;
    cbn [acquireSession]; destruct (take p) as [[r q]|]; try done.
Qed.

(** Calls other than [releaseSession] and [initialize] leave a closed
    pool closed. *)
Lemma closed_stays_closed (cs : list call) p :
  Forall (fun c => refills c = false) cs →
  fold_left apply_call cs (closeAll p) = closeAll p.
Proof.
  induction 1 as [|c cs Hc _ IH]; [done|]. simpl.
  destruct c; [done| | |done|done]; exact IH.
Qed.

Lemma acquire_closed_pending others p :
  Forall (Forall (fun c => refills c = false)) others →
  acquireSession others (closeAll p) = (Pending, closeAll p).
Proof.
  induction 1 as [|cs others Hcs _ IH]; [done|].
  cbn [acquireSession]. rewrite take_empty by done.
  by rewrite closed_stays_closed.
Qed.

(** The pool as [initialize] leaves it: every session available, none
    busy, the books sound. *)
Lemma sessionName_inj (i j : nat) : sessionName i = sessionName j → i = j.
Proof. unfold sessionName. intros H. by simplify_eq. Qed.

Lemma addSessions_spec (f : nat → BrowserContext) (l : list nat) p :
  let q := fold_left (fun q i => addSession q i (f i)) l p in
  availableSessions q = availableSessions p ++ map sessionName l
  ∧ busySessions q = busySessions p
  ∧ dom (sessions q) = dom (sessions p) ∪ list_to_set (map sessionName l).
Proof.
  revert p. induction l as [|i l IH]; intros p; cbn [fold_left map].
  - rewrite app_nil_r. split; [done|]. split; [done|].
    cbn [list_to_set]. by rewrite (right_id_L ∅ (∪)).
  - destruct (IH (addSession p i (f i))) as (Hav & Hbusy & Hdom).
    cbn zeta. rewrite Hav, Hbusy, Hdom.
    cbn [addSession availableSessions busySessions sessions list_to_set].
    rewrite <- app_assoc, dom_insert_L. split; [done|]. split; [done|].
    by rewrite (assoc_L (∪)), (comm_L (∪) (dom (sessions p))).
Qed.

(** [initialize] keeps what it has stored for a name when it goes on to
    other indices. *)
Lemma addSessions_lookup_other (f : nat → BrowserContext) (l : list nat) p
    (i : nat) :
  i ∉ l →
  sessions (fold_left (fun q j => addSession q j (f j)) l p) !! sessionName i
  = sessions p !! sessionName i.
Proof.
  revert p. induction l as [|j l IH]; intros p Hi; [done|].
  cbn [fold_left]. rewrite IH by (intros ?; apply Hi; by right).
  cbn [addSession sessions]. apply lookup_insert_ne.
  intros Heq%sessionName_inj. apply Hi. subst. by left.
Qed.

Lemma addSessions_lookup (f : nat → BrowserContext) (l : list nat) p (i : nat) :
  i ∈ l →
  sessions (fold_left (fun q j => addSession q j (f j)) l p) !! sessionName i
  = Some (f i).
Proof.
  revert p. induction l as [|j l IH]; intros p Hi; [by apply elem_of_nil in Hi|].
  cbn [fold_left]. destruct (decide (i ∈ l)) as [Hin|Hout]; [by apply IH|].
  apply elem_of_cons in Hi as [->|Hin]; [|done].
  rewrite addSessions_lookup_other by done.
  cbn [addSession sessions]. apply lookup_insert_eq.
Qed.

Lemma initialize_conserved (f : nat → BrowserContext) (n : nat) :
  conserved (initialize f (create n))
  ∧ total (initialize f (create n)) = n
  ∧ busySessions (initialize f (create n)) = ∅.
Proof.
  unfold initialize, conserved, total. cbn [create maxSessions].
  destruct (addSessions_spec f (seq 0 n) (create n)) as (Hav & Hbusy & Hdom).
  cbn zeta in *. rewrite Hav, Hbusy, Hdom. cbn [create availableSessions
    busySessions sessions]. rewrite app_nil_l, dom_empty_L, size_empty.
  rewrite length_map, length_seq, (left_id_L ∅ (∪)), (right_id_L ∅ (∪)).
  repeat split; [| |lia].
  - change (NoDup (sessionName <$> seq 0 n)).
    apply NoDup_fmap_2_strong; [|apply NoDup_seq].
    intros i j _ _. apply sessionName_inj.
  - apply Forall_forall. intros x _. apply not_elem_of_empty.
Qed.

(** [acquireSession] moves the last available identity to the busy set
    and keeps the books. *)
Lemma take_conserved p r q :
  conserved p → take p = Some (r, q) →
  conserved q ∧ total q = total p.
Proof.
  intros (Hnd & Hdisj & Hdom). unfold take.
  destruct (pop (availableSessions p)) as [[x rest]|] eqn:Hpop; [|done].
  intros [= <- <-]. apply pop_Some in Hpop.
  unfold conserved, total.
  cbn [availableSessions busySessions sessions]. rewrite Hpop in *.
  apply NoDup_app in Hnd as (Hrest & Hx & _).
  apply Forall_app in Hdisj as (Hdr & Hdx).
  rewrite Forall_forall in Hdr. rewrite Forall_singleton in Hdx.
  split; [split; [done|split]|].
  - apply Forall_forall. intros y Hy [Hb|Hb%elem_of_singleton]%elem_of_union.
    + by apply (Hdr y).
    + subst y. apply (Hx x Hy), list_elem_of_singleton. done.
  - rewrite <- Hdom, list_to_set_app_L. apply set_eq. intros y.
    rewrite !elem_of_union, !elem_of_list_to_set, list_elem_of_singleton,
      elem_of_singleton. tauto.
  - rewrite length_app. cbn [List.length].
    rewrite size_union, size_singleton; [lia|].
    intros y Hy ->%elem_of_singleton. done.
Qed.

(** Releasing an identity that is in use keeps the books. *)
Lemma release_busy_conserved id p :
  conserved p → id ∈ busySessions p →
  conserved (releaseSession id p)
  ∧ total (releaseSession id p) = total p.
Proof.
  intros (Hnd & Hdisj & Hdom) Hbusy. rewrite Forall_forall in Hdisj.
  assert (id ∉ availableSessions p) as Hav by (intros ?; by eapply Hdisj).
  split; [split; [|split]|]; cbn [releaseSession availableSessions
                                   busySessions sessions].
  - apply NoDup_app. split; [done|]. split; [|apply NoDup_singleton].
    intros x Hx ->%list_elem_of_singleton. done.
  - apply Forall_app. split.
    + apply Forall_forall. intros x Hx [Hb _]%elem_of_difference.
      by apply (Hdisj x Hx).
    + apply Forall_singleton. intros [_ Hn]%elem_of_difference.
      by apply Hn, elem_of_singleton.
  - rewrite <- Hdom, list_to_set_app_L. apply set_eq. intros x.
    rewrite !elem_of_union, elem_of_difference, !elem_of_list_to_set,
      list_elem_of_singleton, elem_of_singleton.
    destruct (decide (x = id)) as [->|]; tauto.
  - unfold total. cbn [releaseSession availableSessions busySessions].
    rewrite length_app. cbn [List.length].
    rewrite size_difference by (by apply singleton_subseteq_l).
    rewrite size_singleton.
    assert (size (busySessions p) ≠ 0%nat) as Hsize.
    { intros Hz%size_empty_inv. rewrite Hz in Hbusy.
      by apply not_elem_of_empty in Hbusy. }
    lia.
Qed.

Lemma release_idle_grows id p :
  id ∉ busySessions p →
  busySessions (releaseSession id p) = busySessions p
  ∧ total (releaseSession id p) = S (total p).
Proof.
  intros Hidle. cbn [releaseSession busySessions].
  assert (busySessions p ∖ {[id]} = busySessions p) as Heq.
  { apply set_eq. intros x. rewrite elem_of_difference, elem_of_singleton.
    split; [tauto|]. intros Hx. split; [done|]. by intros ->. }
  split; [done|]. unfold total.
  cbn [releaseSession availableSessions busySessions].
  rewrite Heq, length_app. simpl. lia.
Qed.

(** C5, amended.  [releaseSession] checks nothing.  On an identity
    that is in use, in a pool whose books are sound, it keeps them
    sound and keeps the number of identities.  On an identity that is
    not in use it still appends it to the available list: the busy set
    is unchanged and there is one identity more than before; when the
    identity was available already it is now listed twice, and the
    books are no longer sound. *)
Theorem release_conservation p (id : string) :
  (conserved p → id ∈ busySessions p →
     conserved (releaseSession id p)
     ∧ total (releaseSession id p) = total p)
  ∧ (id ∉ busySessions p →
       availableSessions (releaseSession id p)
       = availableSessions p ++ [id]
       ∧ busySessions (releaseSession id p) = busySessions p
       ∧ total (releaseSession id p) = S (total p))
  ∧ (id ∈ availableSessions p → ¬ conserved (releaseSession id p)).
Proof.
  split; [apply release_busy_conserved|]. split.
  - intros Hidle. split; [done|]. by apply release_idle_grows.
  - intros Hav [Hnd _]. cbn [releaseSession availableSessions] in Hnd.
    apply NoDup_app in Hnd as (_ & Hnot & _).
    apply (Hnot id Hav), list_elem_of_singleton. done.
Qed.

(** A whole [initialize] on a closed pool of size at least one leaves
    the last session it made on top of the available list. *)
Lemma take_initialize_closed (f : nat → BrowserContext) p :
  (0 < maxSessions p)%nat →
  ∃ q, take (initialize f (closeAll p))
       = Some ((sessionName (maxSessions p - 1),
                Some (f (maxSessions p - 1)%nat)), q).
Proof.
  intros Hpos. unfold take, initialize. cbn [closeAll maxSessions].
  destruct (addSessions_spec f (seq 0 (maxSessions p)) (closeAll p))
    as (Hav & _ & _).
  cbn zeta in Hav. rewrite Hav. cbn [closeAll availableSessions].
  rewrite app_nil_l.
  destruct (maxSessions p) as [|m] eqn:Hn; [lia|].
  replace (S m - 1)%nat with m by lia.
  rewrite seq_S, map_app. cbn [map Nat.add]. rewrite pop_snoc.
  rewrite <- seq_S, addSessions_lookup by (apply elem_of_seq; lia).
  eauto.
Qed.

(** A closed pool stays as it is through sleeps in which nobody
    releases or initializes. *)
Lemma acquire_closed_prefix (quiet others : list (list call)) p :
  Forall (Forall (fun c => refills c = false)) quiet →
  acquireSession (quiet ++ others) (closeAll p)
  = acquireSession others (closeAll p).
Proof.
  induction 1 as [|cs quiet Hcs _ IH]; [done|].
  cbn [app acquireSession]. rewrite take_empty by done.
  rewrite closed_stays_closed by done. rewrite IH.
  destruct others as [|cs' others']; cbn [acquireSession];
    by rewrite take_empty by done.
Qed.

(** C6, amended.  After [closeAll()] the available list is empty, and
    [acquireSession] has no error to raise: it never rejects.  It
    stays pending, sleeping in its loop, for as long as no one calls
    [releaseSession] or [initialize].  When, after any number of such
    sleeps, someone releases, it returns the released identity, with no
    context, the sessions having been cleared; when someone initializes
    the pool again, it returns the session made last, with its new
    context. *)
Theorem acquire_after_closeAll p (others : list (list call)) :
  (∀ e, fst (acquireSession others (closeAll p)) ≠ Rejected e)
  ∧ (Forall (Forall (fun c => refills c = false)) others →
       acquireSession others (closeAll p) = (Pending, closeAll p))
  ∧ (∀ id, fst (acquireSession ([Release id] :: others) (closeAll p))
           = Fulfilled (id, None))
  ∧ (∀ quiet,
       Forall (Forall (fun c => refills c = false)) quiet →
       (∀ id, fst (acquireSession (quiet ++ [Release id] :: others)
                     (closeAll p))
              = Fulfilled (id, None))
       ∧ (∀ f, (0 < maxSessions p)%nat →
               fst (acquireSession (quiet ++ [Initialize f] :: others)
                      (closeAll p))
               = Fulfilled (sessionName (maxSessions p - 1),
                            Some (f (maxSessions p - 1)%nat)))
       ∧ (∀ i context,
            fst (acquireSession (quiet ++ [InitializeTurn i context] :: others)
                   (closeAll p))
            = Fulfilled (sessionName i, Some context))).
Proof.
  assert (∀ id, fst (acquireSession ([Release id] :: others) (closeAll p))
                = Fulfilled (id, None)) as Hrelease.
  { intros id. cbn [acquireSession]. rewrite take_empty by done.
    cbn [fold_left apply_call].
    destruct others; cbn [acquireSession]; by rewrite take_release. }
  split; [intros e; apply acquire_never_rejects|].
  split; [apply acquire_closed_pending|].
  split; [exact Hrelease|].
  intros quiet Hquiet. split; [|split].
  - intros id. by rewrite acquire_closed_prefix.
  - intros f Hpos. rewrite acquire_closed_prefix by done.
    cbn [acquireSession]. rewrite take_empty by done.
    cbn [fold_left apply_call].
    destruct (take_initialize_closed f p Hpos) as [q Hq].
    destruct others; cbn [acquireSession]; by rewrite Hq.
  - intros i context. rewrite acquire_closed_prefix by done.
    cbn [acquireSession]. rewrite take_empty by done.
    cbn [fold_left apply_call].
    assert (take (addSession (closeAll p) i context)
            = Some ((sessionName i, Some context),
                    {| maxSessions := maxSessions p;
                       sessions := <[sessionName i := context]> ∅;
                       availableSessions := [];
                       busySessions := ∅ ∪ {[sessionName i]};
                       emitted := emitted p |})) as Hq.
    { unfold take. cbn [addSession closeAll availableSessions sessions
        maxSessions busySessions emitted app]. cbn [pop last removelast].
      by rewrite lookup_insert_eq. }
    destruct others; cbn [acquireSession]; by rewrite Hq.
Qed.

(** C7.  Once [executeWithSession] holds a session, however the task
    body ends, by returning or by throwing, the promise the caller got
    ends the same way, with the body's value or the body's error, and
    [releaseSession] has run on the pool by then: the identity is the
    last of the available list, and the next [acquireSession] returns
    it at once. *)
Theorem release_on_failure {T : Type} (others : list (list call))
    (task : option BrowserContext → Async T) p p1 p2
    (sid : string) (context : option BrowserContext) (outcome : promise T) :
  acquireSession others p = (Fulfilled (sid, context), p1) →
  task context p1 = (outcome, p2) →
  outcome ≠ Pending →
  executeWithSession others task p = (outcome, releaseSession sid p2)
  ∧ (∀ e, outcome = Rejected e →
       fst (executeWithSession others task p) = Rejected e)
  ∧ last (availableSessions (snd (executeWithSession others task p)))
    = Some sid
  ∧ ∀ others',
      fst (acquireSession others' (snd (executeWithSession others task p)))
      = Fulfilled (sid, sessions p2 !! sid).
Proof.
  intros Hacq Htask Hsettled.
  assert (executeWithSession others task p = (outcome, releaseSession sid p2))
    as Hexec.
  { unfold executeWithSession, bind, try_finally.
    rewrite Hacq, Htask. by destruct outcome. }
  rewrite Hexec. cbn [fst snd]. split; [done|]. split; [done|]. split.
  - cbn [releaseSession availableSessions]. apply last_snoc.
  - intros others'.
    destruct others'; cbn [acquireSession]; by rewrite take_release.
Qed.

(** C8, amended.  [releaseSession] appends to the available list, so
    the list is in release order; [acquireSession] takes from the same
    end, the last element.  What it returns is the handle released
    last, the most recently released one: the pool reuses handles as a
    stack does. *)
Theorem acquire_takes_latest_release p (id : string)
    (others : list (list call)) :
  availableSessions (releaseSession id p) = availableSessions p ++ [id]
  ∧ fst (acquireSession others (releaseSession id p))
    = Fulfilled (id, sessions p !! id)
  ∧ availableSessions (snd (acquireSession others (releaseSession id p)))
    = availableSessions p
  ∧ ∀ q : ClaudeSessionPool BrowserContext,
      ((fun r => r.1.1) <$> take q) = last (availableSessions q).
Proof.
  split; [done|].
  assert (acquireSession others (releaseSession id p)
          = (Fulfilled (id, sessions p !! id),
             {| maxSessions := maxSessions p;
                sessions := sessions p;
                availableSessions := availableSessions p;
                busySessions := busySessions p ∖ {[id]} ∪ {[id]};
                emitted := emitted p ++ [id] |})) as ->.
  { destruct others; cbn [acquireSession]; by rewrite take_release. }
  split; [done|]. split; [done|].
  intros q. unfold take, pop. by destruct (last (availableSessions q)).
Qed.

End Facts.

(** C5, as stated, fails.  In a pool of two sessions, both available,
    [releaseSession("session-0")] lists the identity a second time: there
    are now three entries for two sessions, and three calls of
    [acquireSession] in a row, with no release in between, return
    [session-0], [session-1] and [session-0] again. *)
Lemma release_of_idle_handle_duplicates :
  conserved two ∧ total two = 2%nat ∧ ("session-0" ∉ busySessions two)
  ∧ (let q := releaseSession "session-0" two in
     availableSessions q = ["session-0"; "session-1"; "session-0"]
     ∧ total q = 3%nat
     ∧ ¬ NoDup (availableSessions q)
     ∧ (let a1 := acquireSession [] q in
        let a2 := acquireSession [] (snd a1) in
        let a3 := acquireSession [] (snd a2) in
        fst a1 = Fulfilled ("session-0", Some 0%nat)
        ∧ fst a2 = Fulfilled ("session-1", Some 1%nat)
        ∧ fst a3 = Fulfilled ("session-0", Some 0%nat))).
Proof.
  split; [by apply (bool_decide_unpack (conserved two))|].
  split; [by vm_compute|].
  split; [by apply (bool_decide_unpack ("session-0" ∉ busySessions two))|].
  split; [by vm_compute|]. split; [by vm_compute|].
  split; [|by vm_compute].
  by apply (bool_decide_unpack
              (¬ NoDup (availableSessions (releaseSession "session-0" two)))).
Qed.

Lemma release_conservation_witness :
  (conserved (releaseSession "session-1" one_busy)
   ∧ total (releaseSession "session-1" one_busy) = total one_busy)
  ∧ total (releaseSession "session-0" two) = S (total two)
  ∧ ¬ conserved (releaseSession "session-0" two).
Proof.
  pose proof (release_conservation one_busy "session-1") as (H1 & _ & _).
  pose proof (release_conservation two "session-0") as (_ & H2 & H3).
  split.
  - apply H1.
    + by apply (bool_decide_unpack (conserved one_busy)).
    + by apply (bool_decide_unpack ("session-1" ∈ busySessions one_busy)).
  - split.
    + apply H2.
      by apply (bool_decide_unpack ("session-0" ∉ busySessions two)).
    + apply H3.
      by apply (bool_decide_unpack ("session-0" ∈ availableSessions two)).
Defined.

(** C6, as stated, fails.  After [closeAll()] on the pool of two, an
    [acquireSession] that has slept three times, while other callers
    tried to acquire and closed the pool again, is still pending: it has
    not been rejected, with [PoolClosed] or anything else. *)
Lemma acquire_after_closeAll_blocks :
  acquireSession [[]; [Acquire]; [CloseAll]] (closeAll two)
  = (Pending, closeAll two)
  ∧ fst (acquireSession [[]; [Acquire]; [CloseAll]] (closeAll two))
    ≠ Rejected "PoolClosed".
Proof. split; [by vm_compute | by vm_compute]. Qed.

Lemma acquire_after_closeAll_witness :
  acquireSession [[]; [Acquire]; [CloseAll]] (closeAll two)
  = (Pending, closeAll two)
  ∧ fst (acquireSession [[Acquire]; [Initialize (fun i => (i + 10)%nat)]]
           (closeAll two))
    = Fulfilled ("session-1", Some 11%nat).
Proof.
  destruct (acquire_after_closeAll two [[]; [Acquire]; [CloseAll]])
    as (_ & Hpending & _).
  destruct (acquire_after_closeAll two []) as (_ & _ & _ & Hlater).
  destruct (Hlater [[Acquire]]) as (_ & Hinit & _); [repeat constructor|].
  split.
  - apply Hpending. repeat constructor.
  - etrans; [apply Hinit; vm_compute; lia | by vm_compute].
Defined.

Lemma release_on_failure_witness :
  executeWithSession [] failing two
  = (Rejected "boom", releaseSession "session-1" one_busy)
  ∧ fst (acquireSession [] (snd (executeWithSession [] failing two)))
    = Fulfilled ("session-1", Some 1%nat).
Proof.
  pose proof (release_on_failure [] failing two one_busy one_busy
                "session-1" (Some 1%nat) (Rejected "boom")) as H.
  destruct H as (H1 & _ & _ & H2).
  - by vm_compute.
  - reflexivity.
  - discriminate.
  - split; [exact H1|]. rewrite (H2 []). by vm_compute.
Defined.

(** C8, as stated, fails.  Both sessions of the pool of two are taken,
    then [session-1] is released, then [session-0].  The available list
    is in release order, [session-1] first; the next [acquireSession]
    returns [session-0], the one released last, not the one released
    first. *)
Lemma acquire_returns_most_recent_release :
  let p := snd (acquireSession [] (snd (acquireSession [] two))) in
  let q := releaseSession "session-0" (releaseSession "session-1" p) in
  availableSessions p = []
  ∧ availableSessions q = ["session-1"; "session-0"]
  ∧ fst (acquireSession [] q) = Fulfilled ("session-0", Some 0%nat)
  ∧ fst (acquireSession [] q) ≠ Fulfilled ("session-1", Some 1%nat).
Proof. by vm_compute. Qed.

End PoolSpec.

(** ** The stream client *)

Module StreamSpec.

Import Stream.

Lemma socket_send_all_written ds k :
  socket_send_all ds k
  = {| url := url k; authorization := authorization k;
       sessionId := sessionId k; token := token k;
       readyState := readyState k; written := written k ++ ds |}.
Proof.
  revert k. induction ds as [|d ds IH]; intros k.
  - destruct k. simpl. by rewrite app_nil_r.
  - cbn [socket_send_all fold_left]. fold (socket_send_all ds (socket_send d k)).
    rewrite IH. simpl. by rewrite <- app_assoc.
Qed.

Lemma withReadyState_socket_close r k :
  withReadyState r (socket_close k) = withReadyState r k.
Proof. unfold socket_close. by destruct (readyState k). Qed.

Lemma sessionId_socket_close k : sessionId (socket_close k) = sessionId k.
Proof. unfold socket_close. by destruct (readyState k). Qed.

Lemma token_socket_close k : token (socket_close k) = token k.
Proof. unfold socket_close. by destruct (readyState k). Qed.

Lemma reconnectDelay_values :
  map reconnectDelay [1; 2; 3; 4; 5]%nat = [2000; 4000; 8000; 16000; 30000].
Proof. reflexivity. Qed.

Lemma delete_last {A : Type} (l : list A) (x : A) :
  delete (List.length l) (l ++ [x]) = l.
Proof. induction l as [|y l IH]; [done|]. simpl. by rewrite IH. Qed.

Section Facts.

Context {msg : Type} (JSON_stringify : msg → string).
Implicit Types h : CodeStreamHandler msg.

Lemma reconnect_below sid tok h :
  (reconnectAttempts h < 5)%nat →
  reconnect sid tok h
  = withSleeping
      (sleeping h ++ [(reconnectDelay (S (reconnectAttempts h)), sid, tok)])
      (withAttempts (S (reconnectAttempts h)) h).
Proof.
  intros H. unfold reconnect.
  by destruct (Nat.leb_spec 5 (reconnectAttempts h)); [lia|].
Qed.

Lemma reconnect_at_ceiling sid tok h :
  (5 <= reconnectAttempts h)%nat →
  reconnect sid tok h = consoleError maxReached h.
Proof.
  intros H. unfold reconnect.
  by destruct (Nat.leb_spec 5 (reconnectAttempts h)); [|lia].
Qed.

Lemma terminalReports_maxReached h :
  terminalReports (consoleError maxReached h) = S (terminalReports h).
Proof.
  unfold terminalReports. cbn [consoleError console_error].
  rewrite filter_app, length_app. simpl. lia.
Qed.

Lemma terminalReports_wsError h :
  terminalReports (consoleError wsError h) = terminalReports h.
Proof.
  unfold terminalReports. cbn [consoleError console_error].
  rewrite filter_app, length_app. simpl. lia.
Qed.

(** When the sleep that [reconnect] has just started ends, [connect]
    runs with the arguments [reconnect] had. *)
Lemma wake_newest sid tok d h :
  wake (List.length (sleeping h)) (withSleeping (sleeping h ++ [(d, sid, tok)]) h)
  = connect sid tok h.
Proof.
  unfold wake. cbn [withSleeping sleeping].
  rewrite lookup_app_r, Nat.sub_diag by lia. cbn [lookup list_lookup].
  rewrite delete_last. by destruct h.
Qed.

Lemma onCurrent_attempts f h :
  reconnectAttempts (onCurrent f h) = reconnectAttempts h.
Proof. unfold onCurrent. by destruct (ws h). Qed.

Lemma flushLoop_attempts n h :
  reconnectAttempts (flushLoop JSON_stringify n h) = reconnectAttempts h.
Proof.
  revert h. induction n as [|n IH]; intros h; cbn [flushLoop]; [done|].
  destruct (messageBuffer h) as [|m rest]; [done|].
  by rewrite IH, onCurrent_attempts.
Qed.

Lemma reconnect_attempts_bound sid tok h :
  (reconnectAttempts h <= 5)%nat →
  (reconnectAttempts (reconnect sid tok h) <= 5)%nat.
Proof.
  intros H. unfold reconnect.
  destruct (Nat.leb_spec 5 (reconnectAttempts h));
    cbn [consoleError withSleeping withAttempts reconnectAttempts]; lia.
Qed.

(** Whatever happens to a handler, its attempt counter stays at 5 or
    below: no more than five reconnections are started between two
    ['open'] events. *)
Lemma attempts_at_most_5 (es : list event) :
  (reconnectAttempts (run JSON_stringify es fresh) <= 5)%nat.
Proof.
  unfold run.
  assert (reconnectAttempts (fresh (msg := msg)) <= 5)%nat as H0 by (cbn; lia).
  revert H0. generalize (fresh (msg := msg)).
  induction es as [|e es IH]; intros h Hh; [done|].
  cbn [fold_left]. apply IH. destruct e; cbn [step].
  - done.
  - unfold send. destruct (isOpen h); [by rewrite onCurrent_attempts | done].
  - unfold close. by rewrite onCurrent_attempts.
  - destruct (sockets h !! i); [|done]. unfold onOpen, flushMessageBuffer.
    rewrite flushLoop_attempts. cbn. lia.
  - destruct (sockets h !! i); [|done]. by apply reconnect_attempts_bound.
  - destruct (sockets h !! i); [|done]. by apply reconnect_attempts_bound.
  - unfold wake. by destruct (sleeping h !! n) as [[[d sid] tok]|].
Qed.

Lemma wake_after_reconnect sid tok h :
  (reconnectAttempts h < 5)%nat →
  step JSON_stringify (reconnect sid tok h) (Wake (List.length (sleeping h)))
  = connect sid tok (withAttempts (S (reconnectAttempts h)) h).
Proof.
  intros H. rewrite reconnect_below by done. cbn [step].
  apply (wake_newest sid tok _ (withAttempts _ h)).
Qed.

Lemma connect_spec sid tok h :
  sockets (connect sid tok h) = sockets h ++ [connecting sid tok]
  ∧ ws (connect sid tok h) = Some (List.length (sockets h))
  ∧ sleeping (connect sid tok h) = sleeping h
  ∧ reconnectAttempts (connect sid tok h) = reconnectAttempts h.
Proof. done. Qed.

(** The state in which a listener of socket [i] calls [reconnect]:
    an ['error'] has been logged, a ['close'] has closed the socket. *)
Lemma failure_step h i k e :
  sockets h !! i = Some k →
  e = WsError i ∨ e = WsClose i →
  ∃ h0, step JSON_stringify h e = reconnect (sessionId k) (token k) h0
        ∧ reconnectAttempts h0 = reconnectAttempts h
        ∧ sleeping h0 = sleeping h
        ∧ ws h0 = ws h
        ∧ messageBuffer h0 = messageBuffer h
        ∧ List.length (sockets h0) = List.length (sockets h)
        ∧ terminalReports h0 = terminalReports h.
Proof.
  intros Hk [-> | ->]; cbn [step]; rewrite Hk.
  - eexists. split; [reflexivity|].
    repeat split; try done. apply terminalReports_wsError.
  - eexists. split; [reflexivity|].
    repeat split; try done. cbn [withSockets sockets].
    apply length_alter.
Qed.

(** What an ['error'] or a ['close'] event of socket [i] does, below the
    ceiling and at it. *)
Lemma failure_event_reconnects h (i : nat) (k : WebSocket)
    (e : event) :
  sockets h !! i = Some k →
  e = WsError i ∨ e = WsClose i →
  let h' := step JSON_stringify h e in
  ((reconnectAttempts h < 5)%nat →
     reconnectAttempts h' = S (reconnectAttempts h)
     ∧ sleeping h'
       = sleeping h ++ [(reconnectDelay (S (reconnectAttempts h)),
                         sessionId k, token k)]
     ∧ terminalReports h' = terminalReports h
     ∧ (let h'' := step JSON_stringify h' (Wake (List.length (sleeping h))) in
        sleeping h'' = sleeping h
        ∧ ws h'' = Some (List.length (sockets h))
        ∧ sockets h'' !! List.length (sockets h)
          = Some (connecting (sessionId k) (token k))))
  ∧ ((5 <= reconnectAttempts h)%nat →
       reconnectAttempts h' = reconnectAttempts h
       ∧ sleeping h' = sleeping h
       ∧ List.length (sockets h') = List.length (sockets h)
       ∧ ws h' = ws h
       ∧ terminalReports h' = S (terminalReports h)).
Proof.
  intros Hk He h'.
  destruct (failure_step h i k e Hk He)
    as (h0 & Hstep & Hatt & Hsl & Hws & _ & Hlen & Hrep).
  subst h'. rewrite Hstep. split.
  - intros Hlt. rewrite <- Hsl, <- Hlen.
    rewrite (wake_after_reconnect _ _ h0) by lia.
    rewrite reconnect_below by lia. rewrite Hatt.
    repeat split; try done.
    cbn [connect sockets withAttempts].
    by rewrite lookup_app_r, Nat.sub_diag by lia.
  - intros Hge. rewrite reconnect_at_ceiling by lia.
    repeat split; try done. by rewrite terminalReports_maxReached, Hrep.
Qed.

(** C3, amended.  On every ['error'] and every ['close'] event of a
    socket the handler has made, explicitly closed or not:
    while the attempt counter is below 5 it is incremented, a sleep of
    [min(1000 * 2^attempts, 30000)] ms starts, [attempts] being the
    counter after the increment (2, 4, 8, 16, 30 seconds), and when
    the sleep ends [connect] is called with the session and token of
    that socket; nothing is reported.  Once the counter is 5, no sleep
    and no [connect] follow, and the event writes one line, "Max
    reconnection attempts reached", to [console.error]: one line per
    event, and nothing is passed to the caller. *)
Theorem reconnect_on_transport_failure h (i : nat) (k : WebSocket)
    (e : event) :
  sockets h !! i = Some k →
  e = WsError i ∨ e = WsClose i →
  let h' := step JSON_stringify h e in
  ((reconnectAttempts h < 5)%nat →
     reconnectAttempts h' = S (reconnectAttempts h)
     ∧ sleeping h'
       = sleeping h ++ [(reconnectDelay (S (reconnectAttempts h)),
                         sessionId k, token k)]
     ∧ terminalReports h' = terminalReports h
     ∧ (let h'' := step JSON_stringify h' (Wake (List.length (sleeping h))) in
        sleeping h'' = sleeping h
        ∧ ws h'' = Some (List.length (sockets h))
        ∧ sockets h'' !! List.length (sockets h)
          = Some (connecting (sessionId k) (token k))))
  ∧ ((5 <= reconnectAttempts h)%nat →
       reconnectAttempts h' = reconnectAttempts h
       ∧ sleeping h' = sleeping h
       ∧ List.length (sockets h') = List.length (sockets h)
       ∧ ws h' = ws h
       ∧ terminalReports h' = S (terminalReports h))
  ∧ map reconnectDelay [1; 2; 3; 4; 5]%nat
    = [2000; 4000; 8000; 16000; 30000].
Proof.
  intros Hk He h'. subst h'.
  destruct (failure_event_reconnects h i k e Hk He) as [Hlow Hhigh].
  split; [exact Hlow|]. split; [exact Hhigh|]. apply reconnectDelay_values.
Qed.

(** For the ['close'] listener it makes no difference whether
    [close()] was called before. *)
Lemma close_then_WsClose h i k :
  ws h = Some i → sockets h !! i = Some k →
  step JSON_stringify (close h) (WsClose i) = step JSON_stringify h (WsClose i).
Proof.
  intros Hws Hk. unfold close, onCurrent. rewrite Hws. cbn [step].
  cbn [withSockets sockets]. rewrite list_lookup_alter_eq, Hk.
  cbn [fmap option_fmap option_map].
  unfold onClose. rewrite sessionId_socket_close, token_socket_close.
  f_equal. unfold withSockets. cbn. f_equal.
  rewrite list_alter_alter_eq. apply list_alter_ext; [|done].
  intros x _. apply withReadyState_socket_close.
Qed.

(** C4, amended.  [close()] sets no flag: it only asks the current
    socket to close.  The ['close'] event that follows is handled as
    any other, and leaves the handler in the state an unexpected close
    would; while the attempt counter is below 5 a reconnection is
    under way, and when its sleep ends [connect] makes a new socket
    for the same session and token.  Only with the counter at 5 does
    no reconnection follow. *)
Theorem close_does_not_stop_reconnect h (i : nat) (k : WebSocket) :
  ws h = Some i →
  sockets h !! i = Some k →
  let h' := step JSON_stringify (close h) (WsClose i) in
  h' = step JSON_stringify h (WsClose i)
  ∧ ((reconnectAttempts h < 5)%nat →
       sleeping h'
       = sleeping h ++ [(reconnectDelay (S (reconnectAttempts h)),
                         sessionId k, token k)]
       ∧ (let h'' := step JSON_stringify h' (Wake (List.length (sleeping h))) in
          ws h'' = Some (List.length (sockets h))
          ∧ sockets h'' !! List.length (sockets h)
            = Some (connecting (sessionId k) (token k))))
  ∧ ((5 <= reconnectAttempts h)%nat →
       sleeping h' = sleeping h ∧ sockets h' !! List.length (sockets h) = None).
Proof.
  intros Hws Hk h'. subst h'. rewrite (close_then_WsClose h i k Hws Hk).
  split; [done|].
  pose proof (failure_event_reconnects h i k (WsClose i) Hk
                (or_intror eq_refl)) as (Hlow & Hhigh).
  split.
  - intros Hlt. destruct (Hlow Hlt) as (_ & Hs & _ & _ & Hw & Hn). done.
  - intros Hge. destruct (Hhigh Hge) as (_ & Hs & Hlen & _).
    split; [done|]. apply lookup_ge_None. lia.
Qed.

Lemma send_not_open message h :
  isOpen h = false →
  send JSON_stringify message h = withBuffer (messageBuffer h ++ [message]) h.
Proof. intros H. unfold send. by rewrite H. Qed.

Lemma withBuffer_id h : withBuffer (messageBuffer h) h = h.
Proof. by destruct h. Qed.

(** Sends on a stream that is not open only grow the buffer. *)
Lemma sends_not_open (ms : list msg) h :
  isOpen h = false →
  run JSON_stringify (map Send ms) h = withBuffer (messageBuffer h ++ ms) h.
Proof.
  revert h. induction ms as [|m ms IH]; intros h Hh.
  - by rewrite app_nil_r, withBuffer_id.
  - cbn [map run fold_left step]. rewrite send_not_open by done.
    fold (run JSON_stringify (map Send ms)
            (withBuffer (messageBuffer h ++ [m]) h)).
    rewrite IH by done. cbn [withBuffer messageBuffer].
    by rewrite <- app_assoc.
Qed.

(** The loop of [flushMessageBuffer] hands every buffered message to
    the current socket, first in first out, and empties the buffer. *)
Lemma flushLoop_all (n : nat) h (i : nat) :
  ws h = Some i →
  (List.length (messageBuffer h) <= n)%nat →
  flushLoop JSON_stringify n h
  = withBuffer []
      (withSockets
         (alter (socket_send_all (map JSON_stringify (messageBuffer h))) i
                (sockets h)) h).
Proof.
  revert h. induction n as [|n IH]; intros h Hws Hlen.
  - destruct h as [ss w buf a sl ce]. cbn in *.
    destruct buf; [|cbn in Hlen; lia]. cbn.
    unfold withBuffer, withSockets. cbn. f_equal.
    symmetry. by apply list_alter_id.
  - cbn [flushLoop]. destruct h as [ss w buf a sl ce]. cbn in *.
    destruct buf as [|m buf].
    + unfold withBuffer, withSockets. cbn. f_equal.
      symmetry. by apply list_alter_id.
    + rewrite IH; [|by unfold onCurrent; cbn; rewrite Hws|].
      * unfold onCurrent, withBuffer, withSockets. cbn. rewrite Hws. cbn.
        f_equal. rewrite list_alter_alter_eq.
        by apply list_alter_ext.
      * unfold onCurrent. cbn. rewrite Hws. cbn. cbn in Hlen. lia.
Qed.

(** C9.  While the stream is not open (never connected, connecting or
    closed), [send] writes nothing to any socket and appends its message
    to the buffer, and the stream is no more open than before.  When the
    current socket then opens, the attempt counter is set to zero, and
    what was in the buffer, in the order it was sent, is written to that
    socket after what had been written to it before; the buffer is left
    empty and the other sockets untouched. *)
Theorem buffered_sends_flushed_in_order h (ms : list msg) :
  isOpen h = false →
  let h1 := run JSON_stringify (map Send ms) h in
  (transportWrites h1 = transportWrites h
   ∧ sockets h1 = sockets h
   ∧ messageBuffer h1 = messageBuffer h ++ ms
   ∧ isOpen h1 = false)
  ∧ ∀ (i : nat) (k : WebSocket),
      ws h = Some i →
      sockets h !! i = Some k →
      let h2 := step JSON_stringify h1 (WsOpen i) in
      reconnectAttempts h2 = 0%nat
      ∧ messageBuffer h2 = []
      ∧ isOpen h2 = true
      ∧ sockets h2
        = <[i := {| url := url k; authorization := authorization k;
                    sessionId := sessionId k; token := token k;
                    readyState := OPEN;
                    written := written k
                               ++ map JSON_stringify (messageBuffer h ++ ms) |}]>
            (sockets h).
Proof.
  intros Hopen h1. subst h1. rewrite sends_not_open by done.
  split; [done|]. intros i k Hws Hk h2. subst h2.
  cbn [step withBuffer sockets]. rewrite Hk. unfold onOpen, flushMessageBuffer.
  rewrite (flushLoop_all _ _ i) by done.
  cbn [withBuffer withSockets withAttempts reconnectAttempts messageBuffer
       sockets ws].
  rewrite list_alter_alter_eq.
  assert (alter (socket_send_all (map JSON_stringify (messageBuffer h ++ ms))
                 ∘ withReadyState OPEN) i (sockets h)
          = <[i := {| url := url k; authorization := authorization k;
                      sessionId := sessionId k; token := token k;
                      readyState := OPEN;
                      written := written k
                        ++ map JSON_stringify (messageBuffer h ++ ms) |}]>
              (sockets h)) as ->.
  { apply list_eq. intros j. destruct (decide (j = i)) as [->|Hne].
    - rewrite list_lookup_alter_eq, Hk.
      rewrite list_lookup_insert_eq by (by eapply lookup_lt_Some).
      cbn [fmap option_fmap option_map compose].
      by rewrite socket_send_all_written.
    - by rewrite list_lookup_alter_ne, list_lookup_insert_ne. }
  split; [done|]. split; [done|]. split; [|done].
  unfold isOpen, current.
  cbn [ws sockets withBuffer withSockets withAttempts]. rewrite Hws.
  by rewrite list_lookup_insert_eq by (by eapply lookup_lt_Some).
Qed.

End Facts.

(** C3, as stated, fails.  After five transport errors in a row, with no
    ['open'] in between, the counter is 5 and a sixth socket is
    connecting.  When that one fails too, its ['error'] event and its
    ['close'] event each find the counter at 5, and each writes the
    line "Max reconnection attempts reached": the terminal failure is
    reported twice, not once (and to the console only). *)
Lemma terminal_failure_reported_twice :
  let h5 := run stringifyNat fiveErrors fresh in
  reconnectAttempts h5 = 5%nat
  ∧ List.length (sockets h5) = 6%nat
  ∧ sleeping h5 = []
  ∧ terminalReports h5 = 0%nat
  ∧ terminalReports (run stringifyNat [WsError 5; WsClose 5]%nat h5) = 2%nat
  ∧ 2%nat ≠ 1%nat.
Proof. by vm_compute. Qed.

Lemma reconnect_on_transport_failure_witness :
  (let h' := step stringifyNat connected (WsError 0) in
   reconnectAttempts h' = 1%nat
   ∧ sleeping h' = [(reconnectDelay 1, "s", "t")]
   ∧ terminalReports h' = 0%nat)
  ∧ (let h5 := run stringifyNat fiveErrors fresh in
     let h' := step stringifyNat h5 (WsClose 5) in
     reconnectAttempts h' = 5%nat
     ∧ sleeping h' = []
     ∧ terminalReports h' = 1%nat).
Proof.
  split.
  - destruct (reconnect_on_transport_failure stringifyNat connected 0
                (connecting "s" "t") (WsError 0) eq_refl (or_introl eq_refl))
      as (H & _ & _).
    assert (reconnectAttempts connected < 5)%nat as Hlt by (vm_compute; lia).
    destruct (H Hlt) as (H1 & H2 & H3 & _). done.
  - destruct (reconnect_on_transport_failure stringifyNat
                (run stringifyNat fiveErrors fresh) 5
                (connecting "s" "t") (WsClose 5) eq_refl (or_intror eq_refl))
      as (_ & H & _).
    assert (5 <= reconnectAttempts (run stringifyNat fiveErrors fresh))%nat
      as Hge by (vm_compute; lia).
    destruct (H Hge) as (H1 & H2 & _ & _ & H3).
    split; [exact H1|]. split; [exact H2|]. rewrite H3. by vm_compute.
Defined.

(** C4, as stated, fails.  On an open stream, [close()] is called and the
    transport then reports the close.  A reconnection starts: the
    handler sleeps 2000 ms, and when the sleep ends [connect] makes a
    second socket for the same session and token, which becomes the
    current one. *)
Lemma reconnect_after_explicit_close :
  let h := run stringifyNat [Close; WsClose 0%nat] opened in
  reconnectAttempts h = 1%nat
  ∧ sleeping h = [(2000, "s", "t")]
  ∧ (let h' := step stringifyNat h (Wake 0) in
     ws h' = Some 1%nat
     ∧ sockets h' !! 1%nat = Some (connecting "s" "t")).
Proof. by vm_compute. Qed.

Lemma close_does_not_stop_reconnect_witness :
  let h' := step stringifyNat (close opened) (WsClose 0) in
  h' = step stringifyNat opened (WsClose 0)
  ∧ sleeping h' = [(reconnectDelay 1, "s", "t")].
Proof.
  destruct (close_does_not_stop_reconnect stringifyNat opened 0
              {| url := "wss://claude.ai/ws/code/s";
                 authorization := "Bearer t";
                 sessionId := "s"; token := "t";
                 readyState := OPEN; written := [] |} eq_refl eq_refl)
    as (H1 & H2 & _).
  split; [exact H1|].
  assert (reconnectAttempts opened < 5)%nat as Hlt by (vm_compute; lia).
  destruct (H2 Hlt) as [H3 _]. exact H3.
Defined.

Lemma buffered_sends_flushed_in_order_witness :
  let h1 := run stringifyNat (map Send [1; 2; 3]%nat) connected in
  let h2 := step stringifyNat h1 (WsOpen 0) in
  transportWrites h1 = []
  ∧ messageBuffer h1 = [1; 2; 3]%nat
  ∧ reconnectAttempts h2 = 0%nat
  ∧ messageBuffer h2 = []
  ∧ transportWrites h2 = ["1"; "2"; "3"].
Proof.
  destruct (buffered_sends_flushed_in_order stringifyNat connected
              [1; 2; 3]%nat eq_refl) as ((H1 & _ & H3 & _) & Hflush).
  destruct (Hflush 0%nat (connecting "s" "t") eq_refl eq_refl)
    as (H4 & H5 & _ & H7).
  split; [exact H1|]. split; [exact H3|]. split; [exact H4|].
  split; [exact H5|]. unfold transportWrites. rewrite H7. by vm_compute.
Defined.

End StreamSpec.

(** ** More on the rate limiter *)

Module RateLimitMore.

Import JS RateLimit RateLimitSpec.

Lemma prefix_app (s t : string) : String.prefix s (s +:+ t) = true.
Proof.
  induction s as [|a s IH]; [by destruct t|].
  simpl. by destruct (ascii_dec a a).
Qed.

Lemma includes_start (search post : string) :
  includes (search +:+ post) search = true.
Proof.
  destruct (search +:+ post) eqn:E; cbn [includes]; by rewrite <- E, prefix_app.
Qed.

Lemma includes_prepend (pre s search : string) :
  includes s search = true → includes (pre +:+ s) search = true.
Proof.
  intros H. induction pre as [|a pre IH]; [done|].
  simpl. rewrite IH. apply orb_true_r.
Qed.

(** A string occurs in whatever is put around it. *)
Lemma includes_app (pre search post : string) :
  includes (pre +:+ search +:+ post) search = true.
Proof. apply includes_prepend, includes_start. Qed.

(** X1.  The three markers of [getRateLimit] are tried in a fixed order,
    ["/messages"] first: an endpoint in which it occurs has the limit 30,
    whatever else occurs in it.  So the endpoint of [sendMessageAPI] has
    the limit 30 for every session, although ["/sessions"] occurs in it,
    and that of [createSessionAPI] has the limit 10. *)
Theorem messages_marker_wins (pre post sessionId : string) :
  getRateLimit (pre +:+ "/messages" +:+ post) = 30
  ∧ getRateLimit (Extractor.messagesEndpoint sessionId) = 30
  ∧ includes (Extractor.messagesEndpoint sessionId) "/sessions" = true
  ∧ getRateLimit Extractor.sessionsEndpoint = 10.
Proof.
  split; [|split; [|split]].
  - unfold getRateLimit. by rewrite includes_app.
  - assert (includes (Extractor.messagesEndpoint sessionId) "/messages" = true)
      as H.
    { unfold Extractor.messagesEndpoint. do 2 apply includes_prepend.
      exact (includes_start "/messages" ""). }
    unfold getRateLimit. by rewrite H.
  - unfold Extractor.messagesEndpoint.
    apply (includes_app "/v1/code" "/sessions" ("/" +:+ sessionId +:+ "/messages")).
  - reflexivity.
Qed.

Lemma getOr0_insert_ne (m : gmap string Z) (k k' : string) (v : Z) :
  k ≠ k' → getOr0 (<[k := v]> m) k' = getOr0 m k'.
Proof. intros H. rewrite getOr0_insert. by case_decide. Qed.

(** What [shouldThrottle] and [recordRequest] on one endpoint leave of
    another. *)
Lemma shouldThrottle_other now e e' h :
  e ≠ e' →
  getOr0 (requestCounts (snd (shouldThrottle now e h))) e'
  = getOr0 (requestCounts h) e'
  ∧ getOr0 (resetTimes (snd (shouldThrottle now e h))) e'
    = getOr0 (resetTimes h) e'.
Proof.
  intros Hne. unfold shouldThrottle. case_match; cbn [snd]; [|done].
  cbn [requestCounts resetTimes]. by rewrite !getOr0_insert_ne.
Qed.

(** The answer of [shouldThrottle] for an endpoint is read off its own
    count and its own window. *)
Lemma shouldThrottle_answer now e h h' :
  getOr0 (requestCounts h) e = getOr0 (requestCounts h') e →
  getOr0 (resetTimes h) e = getOr0 (resetTimes h') e →
  fst (shouldThrottle now e h) = fst (shouldThrottle now e h').
Proof.
  intros Hc Hr. unfold shouldThrottle. rewrite Hr.
  case_match; cbn [fst requestCounts]; [by rewrite !getOr0_insert_eq|].
  by rewrite Hc.
Qed.

(** X2.  The counts and windows of different endpoints do not touch:
    whatever is checked or recorded for one endpoint, the count, the
    window and the next answer of [shouldThrottle] for another endpoint
    are what they would have been. *)
Theorem endpoints_are_independent (h : RateLimitHandler) (e e' : string)
    (now now' : Z) :
  e ≠ e' →
  let h1 := recordRequest e (snd (shouldThrottle now e h)) in
  getOr0 (requestCounts h1) e' = getOr0 (requestCounts h) e'
  ∧ getOr0 (resetTimes h1) e' = getOr0 (resetTimes h) e'
  ∧ fst (shouldThrottle now' e' h1) = fst (shouldThrottle now' e' h).
Proof.
  intros Hne h1. subst h1.
  destruct (shouldThrottle_other now e e' h Hne) as [Hc Hr].
  assert (getOr0 (requestCounts (recordRequest e (snd (shouldThrottle now e h)))) e'
          = getOr0 (requestCounts h) e') as Hc'.
  { cbn [recordRequest requestCounts]. by rewrite getOr0_insert_ne. }
  split; [done|]. split; [done|]. by apply shouldThrottle_answer.
Qed.

Lemma endpoints_are_independent_witness :
  let h := recordRequests 5 "/compile" (snd (shouldThrottle 1000 "/compile" fresh)) in
  let h1 := recordRequest "/x" (snd (shouldThrottle 2000 "/x" h)) in
  getOr0 (requestCounts h1) "/compile" = getOr0 (requestCounts h) "/compile"
  ∧ getOr0 (resetTimes h1) "/compile" = getOr0 (resetTimes h) "/compile"
  ∧ fst (shouldThrottle 3000 "/compile" h1) = fst (shouldThrottle 3000 "/compile" h).
Proof.
  intros h h1.
  apply (endpoints_are_independent h "/x" "/compile" 2000 3000).
  by vm_compute.
Defined.

(** X3.  In a window that a call of [shouldThrottle] has just opened, the
    answer turns to [true] at the limit and not before: after [n]
    recorded requests, at any time up to the end of the window,
    [shouldThrottle] answers [true] exactly when [n] has reached the
    limit of the endpoint. *)
Theorem throttled_from_the_limit_on (h : RateLimitHandler) (e : string)
    (now0 now : Z) (n : nat) :
  getOr0 (resetTimes h) e < now0 →
  now <= now0 + 60000 →
  fst (shouldThrottle now e
         (recordRequests n e (snd (shouldThrottle now0 e h))))
  = (getRateLimit e <=? Z.of_nat n).
Proof.
  intros Hexp Hnow.
  destruct (shouldThrottle_expired now0 e h Hexp) as (_ & Hc & Hr).
  rewrite shouldThrottle_inside
    by (rewrite recordRequests_resetTimes, Hr; lia).
  cbn [fst]. by rewrite recordRequests_count, Hc.
Qed.

Lemma throttled_from_the_limit_on_witness :
  fst (shouldThrottle 61000 "/compile"
         (recordRequests 4 "/compile" (snd (shouldThrottle 1000 "/compile" fresh))))
  = false.
Proof.
  rewrite (throttled_from_the_limit_on fresh "/compile" 1000 61000 4);
    by vm_compute.
Defined.

(** X4.  Asking does not count: a second call of [shouldThrottle] for the
    same endpoint at the same time gives the same answer and leaves the
    handler as the first call left it. *)
Theorem shouldThrottle_twice (h : RateLimitHandler) (e : string) (now : Z) :
  shouldThrottle now e (snd (shouldThrottle now e h))
  = (fst (shouldThrottle now e h), snd (shouldThrottle now e h)).
Proof.
  by rewrite shouldThrottle_inside by apply shouldThrottle_window.
Qed.

(** X5.  The multiplier is 1, 2, 4 or 8 in every state a handler can
    reach. *)
Theorem multiplier_is_power_of_two (cs : list call) :
  backoffMultiplier (after cs) ∈ [1; 2; 4; 8].
Proof.
  unfold after.
  assert (backoffMultiplier fresh ∈ [1; 2; 4; 8]) as H0 by (cbn; apply list_elem_of_here).
  revert H0. generalize fresh.
  induction cs as [|c cs IH]; intros h Hh; [done|].
  cbn [fold_left]. apply IH.
  destruct c as [now e | e | r now | ]; cbn [apply_call].
  - unfold shouldThrottle. by case_match.
  - done.
  - cbn [handleRateLimitResponse_begin snd backoffMultiplier].
    rewrite !elem_of_cons in Hh. rewrite !elem_of_cons.
    destruct Hh as [-> | [-> | [-> | [-> | []%elem_of_nil]]]]; cbn; auto.
  - cbn. apply list_elem_of_here.
Qed.

(** X6.  Calls that start while the waits of the earlier ones are still
    running find the multiplier doubled each time, up to 8: starting
    from multiplier 1, the call that comes after [n] others waits
    [min(2^n, 8)] times its base wait. *)
Theorem overlapping_calls_saturate (h : RateLimitHandler) (n : nat)
    (r r' : response) (now now' b : Z) :
  backoffMultiplier h = 1 →
  baseWait r' now' = Num b →
  backoffMultiplier (Runs.overlapping n r now h) = Z.min (2 ^ Z.of_nat n) 8
  ∧ fst (handleRateLimitResponse_begin r' now' (Runs.overlapping n r now h))
    = Num (b * Z.min (2 ^ Z.of_nat n) 8).
Proof.
  intros Hm Hb.
  assert (backoffMultiplier (Runs.overlapping n r now h)
          = Z.min (2 ^ Z.of_nat n) 8) as Hn.
  { induction n as [|n IH]; [exact Hm|].
    unfold Runs.overlapping in *. rewrite Nat.iter_succ.
    rewrite begin_multiplier, IH.
    rewrite Nat2Z.inj_succ, Z.pow_succ_r by lia. lia. }
  split; [done|]. by rewrite (begin_wait _ _ _ _ Hb), Hn.
Qed.

Lemma overlapping_calls_saturate_witness :
  let r := {| retryAfter := Some "60"; xRateLimitReset := None |} in
  fst (handleRateLimitResponse_begin r 0 (Runs.overlapping 5 r 0 fresh))
  = Num (60000 * Z.min (2 ^ Z.of_nat 5) 8).
Proof.
  intros r.
  exact (proj2 (overlapping_calls_saturate fresh 5 r r 0 0 60000
                  eq_refl eq_refl)).
Defined.

(** A [Retry-After] header that is present decides the wait alone:
    neither [X-RateLimit-Reset] nor the clock is looked at. *)
Theorem retry_after_takes_priority (r r' : response) (now now' : Z) :
  truthy (retryAfter r) = true →
  retryAfter r' = retryAfter r →
  baseWait r' now' = baseWait r now
  ∧ baseWait r now
    = mul (parseInt (default "" (retryAfter r))) (Num 1000).
Proof.
  intros Ht Heq. unfold baseWait. by rewrite Heq, Ht.
Qed.

Lemma retry_after_takes_priority_witness :
  baseWait {| retryAfter := Some "2"; xRateLimitReset := Some "5" |} 77
  = baseWait {| retryAfter := Some "2"; xRateLimitReset := None |} 0.
Proof.
  exact (proj1 (retry_after_takes_priority
                  {| retryAfter := Some "2"; xRateLimitReset := None |}
                  {| retryAfter := Some "2"; xRateLimitReset := Some "5" |}
                  0 77 eq_refl eq_refl)).
Defined.

(** [parseInt] finds no number in a string that starts with a
    letter. *)
Lemma parseInt_letter (c : ascii) (s : string) :
  isLetter c = true → parseInt (String c s) = NaN.
Proof.
  destruct c as [[] [] [] [] [] [] [] []]; intros H;
    first [discriminate H | reflexivity].
Qed.

(** X7.  A header that is present but in which [parseInt] finds no
    number gives a wait that is not a number, whatever the multiplier
    and the clock: so does every header that starts with a letter, such
    as a [Retry-After] that holds a date.  The default of 60000 ms, times
    the multiplier, is the wait only when both headers are absent or
    empty.  The headers are taken to hold code points below 128, on
    which [parseInt] is modelled in full. *)
Theorem unparsable_header_gives_NaN (h : RateLimitHandler) (r : response)
    (now : Z) :
  isAscii (default "" (retryAfter r)) = true →
  isAscii (default "" (xRateLimitReset r)) = true →
  let wait := fst (handleRateLimitResponse_begin r now h) in
  (truthy (retryAfter r) = true →
   parseInt (default "" (retryAfter r)) = NaN → wait = NaN)
  ∧ (truthy (retryAfter r) = false →
     truthy (xRateLimitReset r) = true →
     parseInt (default "" (xRateLimitReset r)) = NaN → wait = NaN)
  ∧ (∀ c s, retryAfter r = Some (String c s) → isLetter c = true →
            wait = NaN)
  ∧ (∀ c s, truthy (retryAfter r) = false →
            xRateLimitReset r = Some (String c s) → isLetter c = true →
            wait = NaN)
  ∧ (truthy (retryAfter r) = false →
     truthy (xRateLimitReset r) = false →
     wait = Num (60000 * backoffMultiplier h))
  ∧ (wait = Num (60000 * backoffMultiplier h) →
     backoffMultiplier h ≠ 0 →
     (truthy (retryAfter r) = false ∧ truthy (xRateLimitReset r) = false)
     ∨ (truthy (retryAfter r) = true
        ∧ parseInt (default "" (retryAfter r)) = Num 60)
     ∨ (truthy (retryAfter r) = false
        ∧ parseInt (default "" (xRateLimitReset r)) = Num (60000 + now))).
Proof.
  intros _ _ wait. subst wait.
  unfold handleRateLimitResponse_begin, baseWait. cbn [fst].
  split; [by intros -> ->|].
  split; [by intros -> -> ->|].
  split; [intros c s Hr Hc; rewrite Hr; cbn [truthy default from_option id];
          by rewrite parseInt_letter|].
  split; [intros c s -> Hr Hc; rewrite Hr; cbn [truthy default from_option id];
          by rewrite parseInt_letter|].
  split; [by intros -> ->|].
  intros Hwait Hm.
  destruct (truthy (retryAfter r)); [right; left; split; [done|]|].
  - destruct (parseInt _) as [z|]; [|done]. cbn [mul] in Hwait.
    f_equal. injection Hwait as Hwait. nia.
  - destruct (truthy (xRateLimitReset r)); [right; right; split; [done|]|by left].
    destruct (parseInt _) as [z|]; [|done]. cbn [mul sub] in Hwait.
    f_equal. injection Hwait as Hwait. nia.
Qed.

Lemma unparsable_header_gives_NaN_witness :
  fst (handleRateLimitResponse_begin
         {| retryAfter := Some "Wed, 21 Oct 2015 07:28:00 GMT";
            xRateLimitReset := None |} 0 fresh) = NaN
  ∧ fst (handleRateLimitResponse_begin
           {| retryAfter := None; xRateLimitReset := Some "" |} 0 fresh)
    = Num 60000.
Proof.
  destruct (unparsable_header_gives_NaN fresh
              {| retryAfter := Some "Wed, 21 Oct 2015 07:28:00 GMT";
                 xRateLimitReset := None |} 0 eq_refl eq_refl)
    as (H1 & _).
  destruct (unparsable_header_gives_NaN fresh
              {| retryAfter := None; xRateLimitReset := Some "" |} 0
              eq_refl eq_refl)
    as (_ & _ & _ & _ & H5 & _).
  split; [apply H1; by vm_compute | apply H5; by vm_compute].
Defined.

End RateLimitMore.

(** ** More on the session pool *)

Module PoolMore.

Import JS Pool PoolSpec.

(** The queue starts a function exactly when fewer than [concurrency]
    are running and none waits. *)
Lemma canStart_true (q : Queue.PQueue) :
  Queue.canStart q = true
  ↔ (Queue.pending q < Queue.concurrency q)%nat ∧ Queue.size q = 0%nat.
Proof.
  unfold Queue.canStart. rewrite andb_true_iff, Nat.eqb_eq, Nat.ltb_lt. tauto.
Qed.

Lemma canStart_false (q : Queue.PQueue) :
  Queue.canStart q = false
  ↔ (Queue.concurrency q <= Queue.pending q)%nat ∨ (0 < Queue.size q)%nat.
Proof.
  unfold Queue.canStart. rewrite andb_false_iff, Nat.eqb_neq, Nat.ltb_ge. lia.
Qed.

Section Facts.

Context {BrowserContext : Type}.
Implicit Types p q : ClaudeSessionPool BrowserContext.

(** X8.  [initialize] on a new pool of size [n] makes the [n] sessions
    [session-0] to [session-(n-1)], available in that order and none
    busy; each name leads to the context the browser made for it; the
    books are sound and count [n] identities. *)
Theorem initialize_fills_the_pool (f : nat → BrowserContext) (n : nat) :
  let p := initialize f (create n) in
  availableSessions p = map sessionName (seq 0 n)
  ∧ busySessions p = ∅
  ∧ (∀ i, (i < n)%nat → sessions p !! sessionName i = Some (f i))
  ∧ NoDup (availableSessions p)
  ∧ conserved p
  ∧ total p = n.
Proof.
  intros p. subst p.
  destruct (initialize_conserved f n) as (Hcons & Htot & Hbusy).
  destruct (addSessions_spec f (seq 0 n) (create n)) as (Hav & _ & _).
  cbn zeta in Hav. split; [exact Hav|]. split; [done|]. split.
  - intros i Hi. unfold initialize. cbn [create maxSessions].
    apply addSessions_lookup. apply elem_of_seq. lia.
  - split; [apply Hcons|]. done.
Qed.

(** X9.  In a pool whose books are sound, [acquireSession] hands out an
    identity that nobody holds: it was not busy, it is busy afterwards
    and no longer available, it has a context, and the books stay sound
    with the same number of identities. *)
Theorem acquire_is_exclusive p q (sessionId : string)
    (context : option BrowserContext) :
  conserved p →
  take p = Some ((sessionId, context), q) →
  (sessionId ∉ busySessions p)
  ∧ sessionId ∈ busySessions q
  ∧ (sessionId ∉ availableSessions q)
  ∧ is_Some context
  ∧ conserved q
  ∧ total q = total p.
Proof.
  intros Hcons Htake.
  destruct (take_conserved p _ q Hcons Htake) as [Hq Htot].
  destruct Hcons as (Hnd & Hdisj & Hdom). unfold take in Htake.
  destruct (pop (availableSessions p)) as [[x rest]|] eqn:Hpop; [|done].
  injection Htake as <- <- <-. apply pop_Some in Hpop.
  rewrite Hpop in Hnd, Hdisj, Hdom.
  apply NoDup_app in Hnd as (_ & Hx & _).
  apply Forall_app in Hdisj as (_ & Hdx). rewrite Forall_singleton in Hdx.
  cbn [busySessions availableSessions].
  split; [done|]. split; [apply elem_of_union_r, elem_of_singleton; done|].
  split; [intros Hin; apply (Hx x Hin), list_elem_of_singleton; done|].
  split; [|done]. apply elem_of_dom. rewrite <- Hdom.
  apply elem_of_union_l, elem_of_list_to_set, elem_of_app. right.
  by apply list_elem_of_singleton.
Qed.

(** What [acquireSession] does when it finds a session, spelled out. *)
Lemma take_shape p q (sessionId : string) (context : option BrowserContext) :
  take p = Some ((sessionId, context), q) →
  availableSessions p = availableSessions q ++ [sessionId]
  ∧ busySessions q = busySessions p ∪ {[sessionId]}
  ∧ sessions q = sessions p
  ∧ emitted q = emitted p
  ∧ maxSessions q = maxSessions p
  ∧ context = sessions p !! sessionId.
Proof.
  unfold take.
  destruct (pop (availableSessions p)) as [[x rest]|] eqn:Hpop; [|done].
  intros [= <- <- <-]. by apply pop_Some in Hpop.
Qed.

Lemma take_nonempty p :
  availableSessions p ≠ [] → is_Some (take p).
Proof.
  intros Hne. unfold take.
  destruct (availableSessions p) as [|x l] using rev_ind; [done|].
  by rewrite pop_snoc.
Qed.

(** With a session at hand [acquireSession] does not sleep. *)
Lemma acquire_at_once (others : list (list call)) p r q :
  take p = Some (r, q) → acquireSession others p = (Fulfilled r, q).
Proof. intros H. destruct others; cbn [acquireSession]; by rewrite H. Qed.

(** In sound books, an identity taken and given back leaves the busy set
    as it was. *)
Lemma busy_restored p (sessionId : string) (rest : list string) :
  conserved p →
  availableSessions p = rest ++ [sessionId] →
  (busySessions p ∪ {[sessionId]}) ∖ {[sessionId]} = busySessions p.
Proof.
  intros (_ & Hdisj & _) Hav. rewrite Hav in Hdisj.
  apply Forall_app in Hdisj as (_ & Hx). rewrite Forall_singleton in Hx.
  apply set_eq. intros y.
  rewrite elem_of_difference, elem_of_union, elem_of_singleton.
  split; [tauto|]. intros Hy. split; [by left|]. by intros ->.
Qed.

(** [executeWithSession] on a queue that starts the function, and on
    one that does not. *)
Lemma execute_started {T : Type} (qp : Queue.QueuedPool BrowserContext)
    (others : list (list call)) (task : option BrowserContext → Async T) :
  Queue.canStart (Queue.queue qp) = true →
  Queue.executeWithSession others task qp
  = match executeWithSession others task (Queue.pool qp) with
    | (Pending, q) =>
        (Pending,
         {| Queue.pool := q; Queue.queue := Queue.running (Queue.queue qp) |})
    | (outcome, q) =>
        (outcome, {| Queue.pool := q; Queue.queue := Queue.queue qp |})
    end.
Proof. intros H. unfold Queue.executeWithSession, Queue.add. by rewrite H. Qed.

Lemma execute_waits {T : Type} (qp : Queue.QueuedPool BrowserContext)
    (others : list (list call)) (task : option BrowserContext → Async T) :
  Queue.canStart (Queue.queue qp) = false →
  Queue.executeWithSession others task qp
  = (Pending,
     {| Queue.pool := Queue.pool qp;
        Queue.queue := Queue.enqueued (Queue.queue qp) |}).
Proof. intros H. unfold Queue.executeWithSession, Queue.add. by rewrite H. Qed.

(** X10.  A task that has ended, well or badly, leaves no trace.  When
    the queue starts the task (fewer than [maxConcurrency] are running
    and none waits) on sound books with a session available, then after
    [executeWithSession] the available list, in its order, the busy
    set, the sessions and the queue are what they were before, and the
    outcome is the task's.  When the queue does not start it, the
    promise is pending and the pool untouched: the task has neither run
    nor taken a session, and one more function waits in the queue. *)
Theorem execute_restores_pool {T : Type}
    (qp : Queue.QueuedPool BrowserContext) (others : list (list call))
    (outcome : promise T) :
  conserved (Queue.pool qp) →
  availableSessions (Queue.pool qp) ≠ [] →
  outcome ≠ Pending →
  let q := Queue.queue qp in
  let r := Queue.executeWithSession others (Runs.settles outcome) qp in
  ((Queue.pending q < Queue.concurrency q)%nat →
   Queue.size q = 0%nat →
     fst r = outcome
     ∧ availableSessions (Queue.pool (snd r)) = availableSessions (Queue.pool qp)
     ∧ busySessions (Queue.pool (snd r)) = busySessions (Queue.pool qp)
     ∧ sessions (Queue.pool (snd r)) = sessions (Queue.pool qp)
     ∧ conserved (Queue.pool (snd r))
     ∧ Queue.queue (snd r) = q)
  ∧ ((Queue.concurrency q <= Queue.pending q)%nat ∨ (0 < Queue.size q)%nat →
       fst r = Pending
       ∧ Queue.pool (snd r) = Queue.pool qp
       ∧ Queue.concurrency (Queue.queue (snd r)) = Queue.concurrency q
       ∧ Queue.pending (Queue.queue (snd r)) = Queue.pending q
       ∧ Queue.size (Queue.queue (snd r)) = S (Queue.size q)).
Proof.
  intros Hcons Hne Hsettled q r. subst q r. split.
  - intros Hroom Hnone.
    rewrite execute_started by (by apply canStart_true).
    set (p := Queue.pool qp) in *.
    destruct (take_nonempty p Hne) as [[[sid ctx] q] Htake].
    destruct (take_shape p q sid ctx Htake) as (Hav & Hbusy & Hs & _ & _ & _).
    unfold executeWithSession, bind, try_finally, Runs.settles.
    rewrite (acquire_at_once others p _ q Htake).
    assert (availableSessions (releaseSession sid q) = availableSessions p
            ∧ busySessions (releaseSession sid q) = busySessions p
            ∧ sessions (releaseSession sid q) = sessions p) as (H1 & H2 & H3).
    { cbn [releaseSession availableSessions busySessions sessions].
      rewrite Hbusy, (busy_restored p sid _ Hcons Hav). by rewrite Hav, Hs. }
    assert (conserved (releaseSession sid q)) as H4.
    { unfold conserved. rewrite H1, H2, H3. exact Hcons. }
    destruct outcome; done.
  - intros Hfull. by rewrite execute_waits by (by apply canStart_false).
Qed.

(** X11.  A task that never ends keeps what it holds for good.  When
    the queue starts it and a session is available, [executeWithSession]
    stays pending, the session it took stays busy and is available to
    no one, and it counts among the running tasks of the queue from
    then on.  When the queue does not start it, it stays pending as
    well, holding no session: the pool is untouched and the task waits
    in the queue. *)
Theorem pending_task_keeps_session {T : Type}
    (qp : Queue.QueuedPool BrowserContext) p' (others : list (list call))
    (sessionId : string) (context : option BrowserContext) :
  conserved (Queue.pool qp) →
  take (Queue.pool qp) = Some ((sessionId, context), p') →
  let q := Queue.queue qp in
  let r := Queue.executeWithSession (T := T) others (Runs.settles Pending) qp in
  fst r = Pending
  ∧ ((Queue.pending q < Queue.concurrency q)%nat →
     Queue.size q = 0%nat →
       Queue.pool (snd r) = p'
       ∧ sessionId ∈ busySessions (Queue.pool (snd r))
       ∧ (sessionId ∉ availableSessions (Queue.pool (snd r)))
       ∧ List.length (availableSessions (Queue.pool (snd r)))
         = pred (List.length (availableSessions (Queue.pool qp)))
       ∧ Queue.concurrency (Queue.queue (snd r)) = Queue.concurrency q
       ∧ Queue.pending (Queue.queue (snd r)) = S (Queue.pending q)
       ∧ Queue.size (Queue.queue (snd r)) = Queue.size q)
  ∧ ((Queue.concurrency q <= Queue.pending q)%nat ∨ (0 < Queue.size q)%nat →
       Queue.pool (snd r) = Queue.pool qp
       ∧ Queue.concurrency (Queue.queue (snd r)) = Queue.concurrency q
       ∧ Queue.pending (Queue.queue (snd r)) = Queue.pending q
       ∧ Queue.size (Queue.queue (snd r)) = S (Queue.size q)).
Proof.
  intros Hcons Htake q r. subst q r.
  destruct (take_shape _ p' sessionId context Htake) as (Hav & Hbusy & _).
  destruct (Queue.canStart (Queue.queue qp)) eqn:Hq.
  - rewrite execute_started by done.
    unfold executeWithSession, bind, try_finally, Runs.settles.
    rewrite (acquire_at_once others _ _ p' Htake). cbn [fst snd Queue.pool
      Queue.queue Queue.running Queue.pending Queue.size Queue.concurrency].
    split; [done|]. split.
    + intros _ _.
      split; [done|]. split; [rewrite Hbusy; apply elem_of_union_r;
                              by apply elem_of_singleton|].
      split; [|split; [|done]].
      * destruct Hcons as (Hnd & _). rewrite Hav in Hnd.
        apply NoDup_app in Hnd as (_ & Hx & _). intros Hin.
        by apply (Hx sessionId Hin), list_elem_of_singleton.
      * rewrite Hav, length_app. cbn [List.length]. lia.
    + intros Hfull%canStart_false. by rewrite Hfull in Hq.
  - rewrite execute_waits by done. cbn [fst snd Queue.pool Queue.queue
      Queue.enqueued Queue.pending Queue.size Queue.concurrency].
    split; [done|]. split; [|done].
    intros Hroom Hnone.
    assert (Queue.canStart (Queue.queue qp) = true) as Hyes
      by (by apply canStart_true).
    by rewrite Hyes in Hq.
Qed.

Lemma addSessions_maxSessions (f : nat → BrowserContext) (l : list nat) p :
  maxSessions (fold_left (fun q j => addSession q j (f j)) l p) = maxSessions p.
Proof. revert p. induction l as [|j l IH]; intros p; [done|]. cbn. by rewrite IH. Qed.

(** X12.  [initialize] has no guard against a second call: it lists every
    session once more and replaces its context.  After two calls on a
    pool of size [n] the available list holds each of the [n] names
    twice, and for [n] above zero the books are no longer sound. *)
Theorem initialize_twice_duplicates (f g : nat → BrowserContext) (n : nat) :
  let names := map sessionName (seq 0 n) in
  let p := initialize g (initialize f (create n)) in
  availableSessions p = names ++ names
  ∧ total p = (2 * n)%nat
  ∧ (∀ i, (i < n)%nat → sessions p !! sessionName i = Some (g i))
  ∧ ((0 < n)%nat → ¬ conserved p).
Proof.
  intros names p. subst names p.
  destruct (initialize_conserved f n) as (_ & _ & Hbusy1).
  destruct (addSessions_spec f (seq 0 n) (create n)) as (Hav1 & _ & _).
  cbn zeta in Hav1. cbn [create availableSessions app] in Hav1.
  change (fold_left (λ q i, addSession q i (f i)) (seq 0 n) (create n))
    with (initialize f (create n)) in Hav1.
  assert (maxSessions (initialize f (create n)) = n) as Hmax.
  { unfold initialize. by rewrite addSessions_maxSessions. }
  assert (initialize g (initialize f (create n))
          = fold_left (λ q i, addSession q i (g i)) (seq 0 n)
              (initialize f (create n))) as ->.
  { unfold initialize at 1. by rewrite Hmax. }
  destruct (addSessions_spec g (seq 0 n) (initialize f (create n)))
    as (Hav & Hbusy & _).
  cbn zeta in Hav, Hbusy. rewrite Hav1 in Hav.
  split; [exact Hav|]. split; [|split].
  - unfold total. rewrite Hav, Hbusy, Hbusy1, size_empty, length_app,
      !length_map, !length_seq. lia.
  - intros i Hi. apply addSessions_lookup. apply elem_of_seq. lia.
  - intros Hn [Hnd _]. rewrite Hav in Hnd.
    apply NoDup_app in Hnd as (_ & Hx & _).
    assert (sessionName 0 ∈ map sessionName (seq 0 n)) as Hin.
    { apply (list_elem_of_fmap_2 sessionName), elem_of_seq. lia. }
    exact (Hx _ Hin Hin).
Qed.

(** Sleeps during which nothing happens leave an acquirer on an empty
    pool where it was. *)
Lemma idle_sleeps (k : nat) (others : list (list call)) p :
  availableSessions p = [] →
  acquireSession (replicate k [] ++ others) p = acquireSession others p.
Proof.
  intros Hempty. induction k as [|k IH]; [done|].
  cbn [replicate app acquireSession]. rewrite take_empty by done.
  exact IH.
Qed.

(** X13.  An acquirer asleep on an empty pool, for however many sleeps,
    looks at the available list only when a sleep ends, after the calls
    the others made during it.  It returns the identity on top of the
    list they leave, so the one released last when the sleep ends with
    a release; when they leave the list empty it sleeps on, so a session
    that is released and acquired by someone else within one sleep
    passes it by. *)
Theorem waiting_acquirer_gets_release p (k : nat) (cs : list call)
    (others : list (list call)) :
  availableSessions p = [] →
  let p' := fold_left apply_call cs p in
  let r := acquireSession (replicate k [] ++ cs :: others) p in
  (availableSessions p' = [] → r = acquireSession others p')
  ∧ (∀ l id, availableSessions p' = l ++ [id] →
       fst r = Fulfilled (id, sessions p' !! id)
       ∧ availableSessions (snd r) = l
       ∧ id ∈ busySessions (snd r))
  ∧ (∀ l id, cs = l ++ [Release id] →
       fst r = Fulfilled (id, sessions (fold_left apply_call l p) !! id))
  ∧ (∀ id, cs = [Release id; Acquire] →
       r = acquireSession others p'
       ∧ availableSessions p' = []
       ∧ id ∈ busySessions p').
Proof.
  intros Hempty p' r.
  assert (r = acquireSession others p') as Hr.
  { subst r. rewrite idle_sleeps by done.
    cbn [acquireSession]. by rewrite take_empty by done. }
  split; [done|]. split; [|split].
  - intros l id Hav.
    assert (take p'
            = Some ((id, sessions p' !! id),
                    {| maxSessions := maxSessions p';
                       sessions := sessions p';
                       availableSessions := l;
                       busySessions := busySessions p' ∪ {[id]};
                       emitted := emitted p' |})) as Htake.
    { unfold take. by rewrite Hav, pop_snoc. }
    rewrite Hr, (acquire_at_once others _ _ _ Htake).
    cbn [fst snd availableSessions busySessions].
    split; [done|]. split; [done|]. by apply elem_of_union_r, elem_of_singleton.
  - intros l id ->. rewrite Hr. subst p'.
    rewrite fold_left_app. cbn [fold_left apply_call].
    by rewrite (acquire_at_once others _ _ _ (take_release id _)).
  - intros id ->. split; [done|]. subst p'.
    cbn [fold_left apply_call]. rewrite take_release.
    cbn [availableSessions busySessions].
    split; [done|]. by apply elem_of_union_r, elem_of_singleton.
Qed.

(** Acquiring for as long as there is a session empties the available
    list from its end. *)
Lemma acquireMany_all (l : list string) : ∀ p (k : nat),
  availableSessions p = l →
  (List.length l <= k)%nat →
  fst (Runs.acquireMany k p) = reverse l
  ∧ availableSessions (snd (Runs.acquireMany k p)) = [].
Proof.
  induction l as [|x l IH] using rev_ind; intros p k Hav Hlen.
  - destruct k; cbn [Runs.acquireMany]; [done|].
    by rewrite take_empty.
  - rewrite length_app in Hlen. cbn [List.length] in Hlen.
    destruct k as [|k]; [lia|]. cbn [Runs.acquireMany].
    destruct (take_nonempty p) as [[[sid ctx] q] Htake].
    { rewrite Hav. by destruct l. }
    rewrite Htake.
    destruct (take_shape p q sid ctx Htake) as (Hav' & _).
    rewrite Hav in Hav'. apply app_inj_tail in Hav' as [Hl Hx]. subst sid.
    destruct (IH q k (eq_sym Hl)) as [Hids Hrest]; [lia|].
    destruct (Runs.acquireMany k q) as [ids r]. cbn [fst snd] in *.
    by rewrite reverse_snoc, Hids.
Qed.

(** X14.  A pool of [n] sessions serves [n] acquirers and no more: [n]
    calls of [acquireSession] in a row return [n] different identities,
    the last made first, and the one that follows finds nothing and
    waits. *)
Theorem pool_serves_n_then_blocks (f : nat → BrowserContext) (n k : nat) :
  (n <= k)%nat →
  let r := Runs.acquireMany k (initialize f (create n)) in
  fst r = reverse (map sessionName (seq 0 n))
  ∧ List.length (fst r) = n
  ∧ NoDup (fst r)
  ∧ fst (acquireSession [] (snd r)) = Pending.
Proof.
  intros Hk r. subst r.
  destruct (addSessions_spec f (seq 0 n) (create n)) as (Hav & _ & _).
  cbn zeta in Hav. cbn [create availableSessions app] in Hav.
  change (fold_left (λ q i, addSession q i (f i)) (seq 0 n) (create n))
    with (initialize f (create n)) in Hav.
  destruct (acquireMany_all _ (initialize f (create n)) k Hav) as [Hids Hrest].
  { by rewrite length_map, length_seq. }
  rewrite Hids. split; [done|].
  split; [by rewrite length_reverse, length_map, length_seq|]. split.
  - rewrite reverse_Permutation. change (NoDup (sessionName <$> seq 0 n)).
    apply NoDup_fmap_2_strong; [|apply NoDup_seq].
    intros i j _ _. apply sessionName_inj.
  - cbn [acquireSession]. by rewrite take_empty.
Qed.

End Facts.

Lemma acquire_is_exclusive_witness :
  ("session-1" ∉ busySessions two)
  ∧ "session-1" ∈ busySessions one_busy
  ∧ ("session-1" ∉ availableSessions one_busy)
  ∧ total one_busy = total two.
Proof.
  destruct (acquire_is_exclusive (BrowserContext := nat) two one_busy
              "session-1" (Some 1%nat)) as (H1 & H2 & H3 & _ & _ & H6).
  - by apply (bool_decide_unpack (conserved two)).
  - by vm_compute.
  - exact (conj H1 (conj H2 (conj H3 H6))).
Defined.

Lemma initialize_fills_the_pool_witness :
  sessions two !! sessionName 1 = Some 1%nat.
Proof.
  destruct (initialize_fills_the_pool (fun i : nat => i) 2)
    as (_ & _ & H & _).
  apply (H 1%nat). lia.
Defined.

Lemma execute_restores_pool_witness :
  let r := Queue.executeWithSession []
             (Runs.settles (Rejected (A := nat) "boom")) Queue.five in
  let r' := Queue.executeWithSession []
              (Runs.settles (Rejected (A := nat) "boom"))
              (Runs.stuck 3 Queue.five) in
  fst r = Rejected "boom"
  ∧ availableSessions (Queue.pool (snd r)) = availableSessions (Queue.pool Queue.five)
  ∧ busySessions (Queue.pool (snd r)) = busySessions (Queue.pool Queue.five)
  ∧ fst r' = Pending
  ∧ Queue.pool (snd r') = Queue.pool (Runs.stuck 3 Queue.five).
Proof.
  destruct (execute_restores_pool Queue.five [] (Rejected (A := nat) "boom"))
    as ((H1 & H2 & H3 & _) & _).
  - by apply (bool_decide_unpack (conserved (Queue.pool Queue.five))).
  - by vm_compute.
  - discriminate.
  - vm_compute. lia.
  - by vm_compute.
  - destruct (execute_restores_pool (Runs.stuck 3 Queue.five) []
                (Rejected (A := nat) "boom")) as (_ & (H4 & H5 & _)).
    + by apply (bool_decide_unpack
                  (conserved (Queue.pool (Runs.stuck 3 Queue.five)))).
    + by vm_compute.
    + discriminate.
    + left. vm_compute. lia.
    + exact (conj H1 (conj H2 (conj H3 (conj H4 H5)))).
Defined.

Lemma pending_task_keeps_session_witness :
  let r3 := Queue.executeWithSession (T := nat) [] (Runs.settles Pending)
              (Runs.stuck 2 Queue.five) in
  let r4 := Queue.executeWithSession (T := nat) [] (Runs.settles Pending)
              (Runs.stuck 3 Queue.five) in
  "session-2" ∈ busySessions (Queue.pool (snd r3))
  ∧ Queue.pending (Queue.queue (snd r3)) = 3%nat
  ∧ fst r4 = Pending
  ∧ availableSessions (Queue.pool (snd r4)) = ["session-0"; "session-1"]
  ∧ Queue.size (Queue.queue (snd r4)) = 1%nat.
Proof.
  destruct (pending_task_keeps_session (T := nat) (Runs.stuck 2 Queue.five)
              (Queue.pool (Runs.stuck 3 Queue.five)) []
              "session-2" (Some 2%nat)) as (_ & H3 & _).
  - by apply (bool_decide_unpack
                (conserved (Queue.pool (Runs.stuck 2 Queue.five)))).
  - by vm_compute.
  - destruct (pending_task_keeps_session (T := nat) (Runs.stuck 3 Queue.five)
                (snd (acquireSession [] (Queue.pool (Runs.stuck 3 Queue.five))))
                [] "session-1" (Some 1%nat)) as (H4 & _ & H5).
    + by apply (bool_decide_unpack
                  (conserved (Queue.pool (Runs.stuck 3 Queue.five)))).
    + by vm_compute.
    + destruct H3 as (_ & Hbusy & _ & _ & _ & Hpend & _);
        [vm_compute; lia | by vm_compute |].
      destruct H5 as (Hpool & _ & _ & Hsize); [left; vm_compute; lia|].
      split; [exact Hbusy|]. split; [exact Hpend|]. split; [exact H4|].
      split; [by rewrite Hpool|exact Hsize].
Defined.

Lemma initialize_twice_duplicates_witness :
  sessions (initialize (fun i => (10 + i)%nat) two) !! sessionName 1 = Some 11%nat
  ∧ ¬ conserved (initialize (fun i => (10 + i)%nat) two).
Proof.
  destruct (initialize_twice_duplicates (fun i : nat => i)
              (fun i => (10 + i)%nat) 2) as (_ & _ & H3 & H4).
  split; [apply (H3 1%nat); lia | apply H4; lia].
Defined.

Lemma waiting_acquirer_gets_release_witness :
  fst (acquireSession ([[]; []; [Release "session-1"]])
         (snd (Runs.acquireMany 2 two)))
  = Fulfilled ("session-1", Some 1%nat)
  ∧ fst (acquireSession ([[]; []; [Release "session-1"; Acquire]])
           (snd (Runs.acquireMany 2 two)))
    = Pending.
Proof.
  destruct (waiting_acquirer_gets_release (snd (Runs.acquireMany 2 two)) 2
              [Release "session-1"] []) as (_ & _ & H & _);
    [by vm_compute|].
  destruct (waiting_acquirer_gets_release (snd (Runs.acquireMany 2 two)) 2
              [Release "session-1"; Acquire] []) as (_ & _ & _ & H');
    [by vm_compute|].
  split.
  - etrans; [exact (H [] "session-1" eq_refl) | by vm_compute].
  - destruct (H' "session-1" eq_refl) as (Hr & _).
    etrans; [exact (f_equal fst Hr) | by vm_compute].
Defined.

Lemma pool_serves_n_then_blocks_witness :
  fst (Runs.acquireMany 3 two) = ["session-1"; "session-0"]
  ∧ fst (acquireSession [] (snd (Runs.acquireMany 3 two))) = Pending.
Proof.
  destruct (pool_serves_n_then_blocks (fun i : nat => i) 2 3)
    as (H1 & _ & _ & H4); [lia|].
  exact (conj H1 H4).
Defined.

End PoolMore.

(** ** More on the stream client *)

Module StreamMore.

Import Stream StreamSpec.

(** X15.  The delay before a reconnection is between 2 and 30 seconds,
    grows with the number of attempts, and is 30 seconds from the fifth
    attempt on. *)
Theorem reconnect_delay_bounds (a b : nat) :
  (1 <= a)%nat →
  2000 <= reconnectDelay a <= 30000
  ∧ ((a <= b)%nat → reconnectDelay a <= reconnectDelay b)
  ∧ ((5 <= a)%nat → reconnectDelay a = 30000).
Proof.
  intros Ha. unfold reconnectDelay.
  assert (2 ^ 1 <= 2 ^ Z.of_nat a) as H1 by (apply Z.pow_le_mono_r; lia).
  change (2 ^ 1) with 2 in H1.
  split; [lia|]. split.
  - intros Hab.
    assert (2 ^ Z.of_nat a <= 2 ^ Z.of_nat b) by (apply Z.pow_le_mono_r; lia).
    lia.
  - intros H5.
    assert (2 ^ 5 <= 2 ^ Z.of_nat a) as H by (apply Z.pow_le_mono_r; lia).
    change (2 ^ 5) with 32 in H. lia.
Qed.

Lemma reconnect_delay_bounds_witness :
  2000 <= reconnectDelay 3 <= 30000
  ∧ reconnectDelay 3 <= reconnectDelay 4
  ∧ reconnectDelay 7 = 30000.
Proof.
  destruct (reconnect_delay_bounds 3 4) as (H1 & H2 & _); [lia|].
  destruct (reconnect_delay_bounds 7 7) as (_ & _ & H3); [lia|].
  split; [exact H1|]. split; [apply H2; lia | apply H3; lia].
Defined.

Section Facts.

Context {msg : Type} (JSON_stringify : msg → string).
Implicit Types h : CodeStreamHandler msg.

Lemma reconnect_buffer sid tok h :
  messageBuffer (reconnect sid tok h) = messageBuffer h.
Proof. unfold reconnect. by case_match. Qed.

Lemma onCurrent_buffer f h : messageBuffer (onCurrent f h) = messageBuffer h.
Proof. unfold onCurrent. by destruct (ws h). Qed.

Lemma quiet_step_buffer h (e : event) :
  Runs.quiet e = true →
  messageBuffer (step JSON_stringify h e) = messageBuffer h.
Proof.
  destruct e; try done; intros _; cbn [step].
  - apply onCurrent_buffer.
  - destruct (sockets h !! i); [|done]. unfold onError.
    by rewrite reconnect_buffer.
  - destruct (sockets h !! i); [|done]. unfold onClose.
    by rewrite reconnect_buffer.
  - unfold wake. by destruct (sleeping h !! n) as [[[d sid] tok]|].
Qed.

(** What the ['open'] event of the current socket does. *)
Lemma open_flushes h (i : nat) (k : WebSocket) :
  ws h = Some i →
  sockets h !! i = Some k →
  step JSON_stringify h (WsOpen i)
  = {| sockets :=
         <[i := socket_send_all (map JSON_stringify (messageBuffer h))
                  (withReadyState OPEN k)]> (sockets h);
       ws := Some i;
       messageBuffer := [];
       reconnectAttempts := 0;
       sleeping := sleeping h;
       console_error := console_error h |}.
Proof.
  intros Hws Hk. cbn [step]. rewrite Hk. unfold onOpen, flushMessageBuffer.
  rewrite (flushLoop_all _ _ _ i) by done.
  unfold withBuffer, withSockets, withAttempts.
  cbn [reconnectAttempts messageBuffer sockets ws sleeping console_error].
  rewrite Hws, list_alter_alter_eq. f_equal.
  apply list_eq. intros j. destruct (decide (j = i)) as [->|Hne].
  - rewrite list_lookup_alter_eq, Hk.
    by rewrite list_lookup_insert_eq by (by eapply lookup_lt_Some).
  - by rewrite list_lookup_alter_ne, list_lookup_insert_ne.
Qed.

(** X16.  Nothing but a flush takes a message out of the buffer.  Through
    any run of connects, closes, transport errors, transport closes and
    reconnections the buffer is what it was; and when the socket that
    is current at the end opens, all of it is written to that socket,
    in the order it was sent. *)
Theorem buffer_survives_reconnects h (es : list event) :
  forallb Runs.quiet es = true →
  let h1 := run JSON_stringify es h in
  messageBuffer h1 = messageBuffer h
  ∧ ∀ (i : nat) (k : WebSocket),
      ws h1 = Some i →
      sockets h1 !! i = Some k →
      let h2 := step JSON_stringify h1 (WsOpen i) in
      messageBuffer h2 = []
      ∧ (written <$> sockets h2 !! i)
        = Some (written k ++ map JSON_stringify (messageBuffer h)).
Proof.
  intros Hq h1.
  assert (messageBuffer h1 = messageBuffer h) as Hbuf.
  { subst h1. revert h Hq. induction es as [|e es IH]; intros h Hq; [done|].
    cbn [forallb] in Hq. apply andb_true_iff in Hq as [He Hes].
    cbn [run fold_left]. fold (run JSON_stringify es (step JSON_stringify h e)).
    rewrite IH by done. by apply quiet_step_buffer. }
  split; [done|]. intros i k Hws Hk h2. subst h2.
  rewrite (open_flushes h1 i k Hws Hk). cbn [messageBuffer sockets].
  split; [done|].
  rewrite list_lookup_insert_eq by (by eapply lookup_lt_Some).
  cbn [fmap option_fmap option_map]. rewrite socket_send_all_written.
  cbn [written withReadyState]. by rewrite Hbuf.
Qed.

Lemma withSockets_twice (l l' : list WebSocket) h :
  withSockets l (withSockets l' h) = withSockets l h.
Proof. done. Qed.

(** On an open stream [send] writes at once. *)
Lemma send_open (message : msg) h (i : nat) (k : WebSocket) :
  ws h = Some i → sockets h !! i = Some k → readyState k = OPEN →
  send JSON_stringify message h
  = withSockets (<[i := socket_send (JSON_stringify message) k]> (sockets h)) h.
Proof.
  intros Hws Hk Hopen. unfold send, isOpen, current, onCurrent.
  rewrite Hws, Hk, Hopen. cbn [ReadyState_eqb]. f_equal.
  apply list_eq. intros j. destruct (decide (j = i)) as [->|Hne].
  - rewrite list_lookup_alter_eq, Hk.
    by rewrite list_lookup_insert_eq by (by eapply lookup_lt_Some).
  - by rewrite list_lookup_alter_ne, list_lookup_insert_ne.
Qed.

Lemma sends_open (ms : list msg) : ∀ h (i : nat) (k : WebSocket),
  ws h = Some i → sockets h !! i = Some k → readyState k = OPEN →
  run JSON_stringify (map Send ms) h
  = withSockets
      (<[i := socket_send_all (map JSON_stringify ms) k]> (sockets h)) h.
Proof.
  induction ms as [|m ms IH]; intros h i k Hws Hk Hopen.
  - cbn. rewrite list_insert_id by done. by destruct h.
  - cbn [map run fold_left step].
    rewrite (send_open m h i k Hws Hk Hopen).
    fold (run JSON_stringify (map Send ms)
            (withSockets (<[i:=socket_send (JSON_stringify m) k]> (sockets h)) h)).
    rewrite (IH _ i (socket_send (JSON_stringify m) k)); [|done| |done].
    + cbn [withSockets sockets]. rewrite list_insert_insert_eq.
      by rewrite withSockets_twice.
    + cbn [withSockets sockets].
      by rewrite list_lookup_insert_eq by (by eapply lookup_lt_Some).
Qed.

(** X17.  While the stream is open the buffer is not used: messages sent
    are written to the current socket at once, in the order of the
    calls, after what was written before; the buffer and the other
    sockets stay as they are. *)
Theorem open_sends_are_written_at_once h (ms : list msg) (i : nat)
    (k : WebSocket) :
  ws h = Some i →
  sockets h !! i = Some k →
  readyState k = OPEN →
  let h1 := run JSON_stringify (map Send ms) h in
  messageBuffer h1 = messageBuffer h
  ∧ isOpen h1 = true
  ∧ sockets h1
    = <[i := {| url := url k; authorization := authorization k;
                sessionId := sessionId k; token := token k;
                readyState := OPEN;
                written := written k ++ map JSON_stringify ms |}]>
        (sockets h).
Proof.
  intros Hws Hk Hopen h1. subst h1.
  rewrite (sends_open ms h i k Hws Hk Hopen), socket_send_all_written, Hopen.
  split; [done|]. split; [|done].
  unfold isOpen, current. cbn [withSockets ws sockets]. rewrite Hws.
  by rewrite list_lookup_insert_eq by (by eapply lookup_lt_Some).
Qed.

(** X18.  The order of the calls of [send] is the order on the wire,
    across the opening of the socket: what was buffered before the
    socket opened is written first, then what is sent once it is open. *)
Theorem send_order_is_kept_across_open h (before after : list msg)
    (i : nat) (k : WebSocket) :
  isOpen h = false →
  ws h = Some i →
  sockets h !! i = Some k →
  let h1 := run JSON_stringify
              (map Send before ++ WsOpen i :: map Send after) h in
  messageBuffer h1 = []
  ∧ (written <$> sockets h1 !! i)
    = Some (written k
            ++ map JSON_stringify (messageBuffer h ++ before ++ after)).
Proof.
  intros Hclosed Hws Hk h1. subst h1. unfold run.
  rewrite fold_left_app. fold (run JSON_stringify (map Send before) h).
  rewrite sends_not_open by done. cbn [fold_left].
  rewrite (open_flushes _ i k) by done.
  cbn [withBuffer messageBuffer sockets sleeping console_error].
  match goal with
  | |- context [fold_left _ _ ?h0] =>
      fold (run JSON_stringify (map Send after) h0);
      rewrite (sends_open after h0 i
                 (socket_send_all
                    (map JSON_stringify (messageBuffer h ++ before))
                    (withReadyState OPEN k)))
  end.
  - cbn [withSockets messageBuffer sockets]. split; [done|].
    rewrite list_insert_insert_eq.
    rewrite list_lookup_insert_eq by (by eapply lookup_lt_Some).
    cbn [fmap option_fmap option_map].
    rewrite !socket_send_all_written. cbn [written withReadyState].
    by rewrite !map_app, !app_assoc.
  - done.
  - cbn [sockets].
    by rewrite list_lookup_insert_eq by (by eapply lookup_lt_Some).
  - by rewrite socket_send_all_written.
Qed.

Lemma delete_at {A : Type} (l rest : list A) (x : A) :
  delete (List.length l) (l ++ x :: rest) = l ++ rest.
Proof. induction l as [|y l IH]; [done|]. simpl. by rewrite IH. Qed.

Lemma wake_at (l rest : list (Z * string * string)) (d : Z)
    (sid tok : string) h :
  sleeping h = l ++ (d, sid, tok) :: rest →
  wake (List.length l) h = connect sid tok (withSleeping (l ++ rest) h).
Proof.
  intros Hs. unfold wake. rewrite Hs.
  rewrite lookup_app_r, Nat.sub_diag by lia. cbn [lookup list_lookup].
  by rewrite delete_at.
Qed.

(** X19.  A socket that fails with an ['error'] event and then a
    ['close'] event calls [reconnect] twice, not once.  Each call starts
    a reconnection while the counter is below 5 and reports the terminal
    failure otherwise: so up to a counter of 3 two reconnections start,
    at 4 one starts and one report is written, at 5 none starts and two
    reports are written.  The counter goes up by the number of
    reconnections started, as many sleeps are under way, and when they
    end [connect] has been called as many times for the same session and
    token. *)
Theorem error_then_close_reconnects_twice h (i : nat) (k : WebSocket) :
  sockets h !! i = Some k →
  let a := reconnectAttempts h in
  let started := Nat.min 2 (5 - a) in
  let n := List.length (sleeping h) in
  let h1 := run JSON_stringify [WsError i; WsClose i] h in
  let h2 := run JSON_stringify (replicate started (Wake n)) h1 in
  reconnectAttempts h1 = (a + started)%nat
  ∧ sleeping h1
    = sleeping h
      ++ map (fun j => (reconnectDelay (a + j), sessionId k, token k))
             (seq 1 started)
  ∧ terminalReports h1 = (terminalReports h + (2 - started))%nat
  ∧ sleeping h2 = sleeping h
  ∧ sockets h2
    = sockets h1 ++ replicate started (connecting (sessionId k) (token k)).
Proof.
  intros Hk a started n h1 h2.
  assert (((a + 2 <= 5)%nat ∧ started = 2%nat)
          ∨ (a = 4%nat ∧ started = 1%nat)
          ∨ ((5 <= a)%nat ∧ started = 0%nat)) as Hcases
    by (subst started; lia).
  subst h2. clearbody started.
  destruct Hcases as [[Hlt ->]|[[Ha ->]|[Hge ->]]]; subst a;
    cbn [replicate seq map].
  - assert (h1 = withSockets (alter (withReadyState CLOSED) i (sockets h))
                   (withSleeping
                      (sleeping h
                       ++ [(reconnectDelay (reconnectAttempts h + 1),
                            sessionId k, token k);
                           (reconnectDelay (reconnectAttempts h + 2),
                            sessionId k, token k)])
                      (withAttempts (reconnectAttempts h + 2)
                         (consoleError wsError h)))) as Hh1.
    { subst h1. cbn [run fold_left step]. rewrite Hk.
      unfold onError. rewrite reconnect_below by (cbn; lia).
      cbn [withSleeping withAttempts consoleError sockets reconnectAttempts
           sleeping]. rewrite Hk.
      unfold onClose. rewrite reconnect_below by (cbn; lia).
      unfold withSleeping, withAttempts, withSockets, consoleError.
      cbn [sockets reconnectAttempts sleeping ws messageBuffer console_error].
      rewrite <- !app_assoc. cbn [app].
      replace (reconnectAttempts h + 2)%nat with (S (S (reconnectAttempts h)))
        by lia.
      by replace (reconnectAttempts h + 1)%nat with (S (reconnectAttempts h))
        by lia. }
    rewrite Hh1. clear Hh1 h1.
    split; [done|]. split; [done|]. split.
    { unfold terminalReports.
      cbn [withSockets withSleeping withAttempts consoleError console_error].
      rewrite filter_app, length_app. simpl. lia. }
    cbn [run fold_left step]. subst n.
    match goal with
    | |- context [wake _ (wake _ ?hA)] =>
        rewrite (wake_at (sleeping h) [_] _ _ _ hA eq_refl)
    end.
    match goal with
    | |- context [wake _ ?hB] =>
        rewrite (wake_at (sleeping h) [] _ _ _ hB eq_refl)
    end.
    cbn [connect withSleeping withSockets sleeping sockets].
    rewrite app_nil_r, <- app_assoc. done.
  - assert (h1 = consoleError maxReached
                   (withSockets (alter (withReadyState CLOSED) i (sockets h))
                      (withSleeping
                         (sleeping h
                          ++ [(reconnectDelay (reconnectAttempts h + 1),
                               sessionId k, token k)])
                         (withAttempts 5 (consoleError wsError h))))) as Hh1.
    { subst h1. cbn [run fold_left step]. rewrite Hk.
      unfold onError. rewrite reconnect_below by (cbn; lia).
      cbn [withSleeping withAttempts consoleError sockets reconnectAttempts
           sleeping]. rewrite Hk.
      unfold onClose. rewrite reconnect_at_ceiling by (cbn; lia).
      rewrite Ha. done. }
    rewrite Hh1. clear Hh1 h1.
    split; [cbn; lia|]. split; [done|]. split.
    { rewrite terminalReports_maxReached. unfold terminalReports.
      cbn [withSockets withSleeping withAttempts consoleError console_error].
      rewrite filter_app, length_app. simpl. lia. }
    cbn [run fold_left step]. subst n.
    match goal with
    | |- context [wake _ ?hB] =>
        rewrite (wake_at (sleeping h) [] _ _ _ hB eq_refl)
    end.
    cbn [connect withSleeping withSockets consoleError sleeping sockets].
    by rewrite app_nil_r.
  - assert (h1 = consoleError maxReached
                   (withSockets (alter (withReadyState CLOSED) i (sockets h))
                      (consoleError maxReached (consoleError wsError h))))
      as Hh1.
    { subst h1. cbn [run fold_left step]. rewrite Hk.
      unfold onError. rewrite reconnect_at_ceiling by (cbn; lia).
      cbn [consoleError sockets]. rewrite Hk.
      unfold onClose. by rewrite reconnect_at_ceiling by (cbn; lia). }
    rewrite Hh1. clear Hh1 h1.
    split; [cbn; lia|]. split; [cbn; by rewrite app_nil_r|]. split.
    { rewrite terminalReports_maxReached. unfold terminalReports.
      cbn [withSockets withSleeping withAttempts consoleError console_error].
      rewrite !filter_app, !length_app. simpl. lia. }
    cbn [run fold_left]. split; [done|]. by rewrite app_nil_r.
Qed.

Lemma reconnect_connections sid tok h :
  (Runs.connections (reconnect sid tok h) + reconnectAttempts h
   = Runs.connections h + reconnectAttempts (reconnect sid tok h))%nat.
Proof.
  unfold reconnect, Runs.connections. case_match; [done|].
  cbn [withSleeping withAttempts sockets sleeping reconnectAttempts].
  rewrite length_app. cbn [List.length]. lia.
Qed.

Lemma onCurrent_connections f h :
  Runs.connections (onCurrent f h) = Runs.connections h.
Proof.
  unfold onCurrent, Runs.connections. destruct (ws h); [|done].
  cbn [withSockets sockets sleeping]. by rewrite length_alter.
Qed.

(** Every event but an ['open'] keeps the count of connections in step
    with the counter. *)
Lemma step_connections h (e : event) :
  Runs.isOpenEvent e = false →
  (Runs.connections (step JSON_stringify h e) + reconnectAttempts h
   = Runs.connections h + (if Runs.isConnect e then 1 else 0)
     + reconnectAttempts (step JSON_stringify h e))%nat.
Proof.
  destruct e; try done; intros _; cbn [step Runs.isConnect].
  - unfold Runs.connections. cbn [connect sockets sleeping reconnectAttempts].
    rewrite length_app. cbn [List.length]. lia.
  - unfold send. destruct (isOpen h).
    + rewrite onCurrent_connections, onCurrent_attempts. lia.
    + unfold Runs.connections. cbn. lia.
  - unfold close. rewrite onCurrent_connections, onCurrent_attempts. lia.
  - destruct (sockets h !! i); [|lia]. unfold onError.
    pose proof (reconnect_connections (sessionId w) (token w)
                  (consoleError wsError h)) as H.
    unfold Runs.connections in *. cbn [consoleError sockets sleeping
      reconnectAttempts] in *. lia.
  - destruct (sockets h !! i); [|lia]. unfold onClose.
    pose proof (reconnect_connections (sessionId w) (token w)
                  (withSockets (alter (withReadyState CLOSED) i (sockets h)) h))
      as H.
    unfold Runs.connections in *. cbn [withSockets sockets sleeping
      reconnectAttempts] in *. rewrite length_alter in H. lia.
  - unfold wake. destruct (sleeping h !! n) as [[[d sid] tok]|] eqn:Hn; [|lia].
    unfold Runs.connections.
    cbn [connect withSleeping sockets sleeping reconnectAttempts].
    rewrite length_app, length_delete by eauto. cbn [List.length].
    apply lookup_lt_Some in Hn. lia.
Qed.

Lemma run_connections (es : list event) : ∀ h,
  forallb (fun e => negb (Runs.isOpenEvent e)) es = true →
  (Runs.connections (run JSON_stringify es h) + reconnectAttempts h
   = Runs.connections h + List.length (filter (fun e => Runs.isConnect e = true) es)
     + reconnectAttempts (run JSON_stringify es h))%nat.
Proof.
  induction es as [|e es IH]; intros h Hes; [cbn; lia|].
  cbn [forallb] in Hes. apply andb_true_iff in Hes as [He Hes].
  apply negb_true_iff in He.
  cbn [run fold_left]. fold (run JSON_stringify es (step JSON_stringify h e)).
  specialize (IH (step JSON_stringify h e) Hes).
  pose proof (step_connections h e He) as Hstep.
  rewrite filter_cons. destruct (Runs.isConnect e) eqn:Hc.
  - rewrite decide_True by done. cbn [List.length]. lia.
  - rewrite decide_False by done. lia.
Qed.

(** X20.  The attempt counter never goes above 5, whatever happens to the
    handler; and as long as no socket opens, it counts the reconnections:
    the sockets made and the sleeps under way are those the caller asked
    for with [connect], plus as many as the counter says.  So between
    two ['open'] events at most five reconnections are started. *)
Theorem at_most_five_reconnections (es : list event) :
  (reconnectAttempts (run JSON_stringify es fresh) <= 5)%nat
  ∧ (forallb (fun e => negb (Runs.isOpenEvent e)) es = true →
     let connects := List.length (filter (fun e => Runs.isConnect e = true) es) in
     Runs.connections (run JSON_stringify es fresh)
     = (connects + reconnectAttempts (run JSON_stringify es fresh))%nat
     ∧ (Runs.connections (run JSON_stringify es fresh) <= connects + 5)%nat).
Proof.
  pose proof (attempts_at_most_5 JSON_stringify es) as Hle.
  split; [exact Hle|]. intros Hes connects. subst connects.
  pose proof (run_connections es fresh Hes) as H.
  unfold Runs.connections in *. cbn [fresh sockets sleeping reconnectAttempts
    List.length] in H. lia.
Qed.

Lemma written_alter_send (d : string) (l : list WebSocket) (i : nat)
    (k : WebSocket) :
  l !! i = Some k →
  List.length (List.concat (map written (alter (socket_send d) i l)))
  = S (List.length (List.concat (map written l))).
Proof.
  revert i. induction l as [|x l IH]; intros i Hk; [done|].
  destruct i as [|i]; cbn [alter list_alter map List.concat].
  - cbn [socket_send written]. rewrite !length_app. cbn [List.length]. lia.
  - rewrite !length_app. cbn in Hk. rewrite (IH i Hk). lia.
Qed.

(** X21.  [send] neither drops a message nor sends it twice: after every
    call, in every state, there is exactly one more message among those
    buffered and those written to a socket. *)
Theorem send_keeps_every_message h (message : msg) :
  let h1 := send JSON_stringify message h in
  (List.length (messageBuffer h1) + List.length (transportWrites h1)
   = S (List.length (messageBuffer h) + List.length (transportWrites h)))%nat.
Proof.
  intros h1. subst h1. unfold send, isOpen, current.
  destruct (ws h) as [i|] eqn:Hws.
  - destruct (sockets h !! i) as [k|] eqn:Hk.
    + destruct (ReadyState_eqb (readyState k) OPEN).
      * unfold onCurrent, transportWrites. rewrite Hws.
        cbn [withSockets sockets messageBuffer].
        rewrite (written_alter_send _ _ _ k Hk). lia.
      * unfold transportWrites. cbn [withBuffer sockets messageBuffer].
        rewrite length_app. cbn [List.length]. lia.
    + unfold transportWrites. cbn [withBuffer sockets messageBuffer].
      rewrite length_app. cbn [List.length]. lia.
  - unfold transportWrites. cbn [withBuffer sockets messageBuffer].
    rewrite length_app. cbn [List.length]. lia.
Qed.

End Facts.

Lemma buffer_survives_reconnects_witness :
  let h1 := run stringifyNat [WsError 0; Wake 0; WsClose 0; Wake 0]%nat Runs.waiting in
  messageBuffer h1 = [1; 2]%nat
  ∧ ws h1 = Some 2%nat
  ∧ (written <$> sockets (step stringifyNat h1 (WsOpen 2)) !! 2%nat)
    = Some ["1"; "2"].
Proof.
  destruct (buffer_survives_reconnects stringifyNat Runs.waiting
              [WsError 0; Wake 0; WsClose 0; Wake 0]%nat eq_refl) as [H1 H2].
  split; [exact H1|]. split; [by vm_compute|].
  destruct (H2 2%nat (connecting "s" "t") eq_refl eq_refl) as [_ H3].
  exact H3.
Defined.

Lemma open_sends_are_written_at_once_witness :
  let h1 := run stringifyNat (map Send [4; 5]%nat) opened in
  messageBuffer h1 = []
  ∧ (written <$> sockets h1 !! 0%nat) = Some ["4"; "5"].
Proof.
  destruct (open_sends_are_written_at_once stringifyNat opened [4; 5]%nat 0
              {| url := "wss://claude.ai/ws/code/s";
                 authorization := "Bearer t";
                 sessionId := "s"; token := "t";
                 readyState := OPEN; written := [] |}
              eq_refl eq_refl eq_refl) as (H1 & _ & H3).
  split; [exact H1|]. rewrite H3. by vm_compute.
Defined.

Lemma send_order_is_kept_across_open_witness :
  let h1 := run stringifyNat
              (map Send [3]%nat ++ WsOpen 0 :: map Send [4; 5]%nat) Runs.waiting in
  messageBuffer h1 = []
  ∧ (written <$> sockets h1 !! 0%nat) = Some ["1"; "2"; "3"; "4"; "5"].
Proof.
  exact (send_order_is_kept_across_open stringifyNat Runs.waiting [3]%nat
           [4; 5]%nat 0 (connecting "s" "t") eq_refl eq_refl eq_refl).
Defined.

Lemma error_then_close_reconnects_twice_witness :
  let h1 := run stringifyNat [WsError 0; WsClose 0]%nat connected in
  let h5 := run stringifyNat [WsError 4; WsClose 4]%nat
              (run stringifyNat [Connect "s" "t"; WsError 0; Wake 0;
                                 WsError 1; Wake 0; WsError 2; Wake 0;
                                 WsError 3; Wake 0]%nat fresh) in
  reconnectAttempts h1 = 2%nat
  ∧ sleeping h1 = [(2000, "s", "t"); (4000, "s", "t")]
  ∧ List.length (sockets (run stringifyNat [Wake 0; Wake 0]%nat h1)) = 3%nat
  ∧ reconnectAttempts h5 = 5%nat
  ∧ sleeping h5 = [(30000, "s", "t")]
  ∧ terminalReports h5 = 1%nat.
Proof.
  intros h1 h5.
  destruct (error_then_close_reconnects_twice stringifyNat connected 0
              (connecting "s" "t") eq_refl) as (H1 & H2 & _ & _ & H4).
  destruct (error_then_close_reconnects_twice stringifyNat
              (run stringifyNat [Connect "s" "t"; WsError 0; Wake 0;
                                 WsError 1; Wake 0; WsError 2; Wake 0;
                                 WsError 3; Wake 0]%nat fresh) 4
              (connecting "s" "t") eq_refl) as (H5 & H6 & H7 & _).
  split; [exact H1|]. split; [exact H2|]. split.
  - change (List.length (sockets
              (run stringifyNat [Wake 0; Wake 0]%nat h1)) = 3%nat).
    change (run stringifyNat [Wake 0; Wake 0]%nat h1)
      with (run stringifyNat
              (replicate (Nat.min 2 (5 - reconnectAttempts connected))
                 (Wake (List.length (sleeping connected)))) h1).
    unfold h1. rewrite H4. by vm_compute.
  - split; [exact H5|]. split; [exact H6|]. exact H7.
Defined.

Lemma at_most_five_reconnections_witness :
  Runs.connections (run stringifyNat fiveErrors fresh)
  = (1 + reconnectAttempts (run stringifyNat fiveErrors fresh))%nat.
Proof.
  destruct (at_most_five_reconnections stringifyNat fiveErrors) as [_ H].
  destruct (H eq_refl) as [H1 _]. exact H1.
Defined.

End StreamMore.

(** ** The API extractor *)

Module ExtractorSpec.

Import JS Extractor.

(** The extractor after a series of extractions, the first of [pages]
    first. *)
Lemma extract_snoc (pages : list AuthData) (a : AuthData) x :
  fold_left (fun x a => extractAuthDetails a x) (pages ++ [a]) x
  = extractAuthDetails a (fold_left (fun x a => extractAuthDetails a x) pages x).
Proof. by rewrite fold_left_app. Qed.

Lemma truthy_Some (v : option string) :
  truthy v = true → ∃ c s, v = Some (String c s).
Proof. destruct v as [[|c s]|]; try done. eauto. Qed.

(** X22.  The extractor never loses a token: after any series of
    extractions it has one exactly if it had one before or one of the
    pages held one.  The [Authorization] header is the bearer form of the
    token it has, and there are no headers while it has none; the
    organization, unlike the token, is that of the last page alone. *)
Theorem token_is_never_cleared (pages : list AuthData) :
  let x := fold_left (fun x a => extractAuthDetails a x) pages fresh in
  hasSessionToken x = existsb (fun a => truthy (token a)) pages
  ∧ (∀ t, sessionToken x = Some t →
          authHeaders x !! "Authorization" = Some ("Bearer " +:+ t))
  ∧ (hasSessionToken x = false → authHeaders x = ∅)
  ∧ organizationId x
    = match last pages with
      | Some a => orElse (sessionOrganizationId a) None
      | None => None
      end.
Proof.
  induction pages as [|a pages IH] using rev_ind; [done|].
  rewrite extract_snoc, existsb_app, last_snoc. cbn [existsb].
  rewrite orb_false_r. cbn zeta in IH.
  destruct IH as (Hhas & Hauth & Hnone & _).
  set (x := fold_left _ pages fresh) in *.
  unfold extractAuthDetails, hasSessionToken in *.
  destruct (truthy (token a)) eqn:Ht;
    cbn [sessionToken authHeaders organizationId].
  - rewrite Ht, orb_true_r. split; [done|]. split; [|done].
    intros t Heq. rewrite Heq. cbn [default from_option id].
    apply lookup_insert_eq.
  - by rewrite orb_false_r.
Qed.

(** X23.  In the request [makeAPIRequest] builds, a header the caller
    gives wins over the fixed ones and over the extractor's; where the
    caller gives none, the content type is JSON and the authorization
    is the extractor's. *)
Theorem caller_headers_win (endpoint : string) (options : Options)
    (x : ClaudeCodeAPIExtractor) :
  let request := buildRequest endpoint options x in
  (∀ key value, optHeaders options !! key = Some value →
                headers request !! key = Some value)
  ∧ (optHeaders options !! "Content-Type" = None →
     headers request !! "Content-Type" = Some "application/json")
  ∧ (optHeaders options !! "Authorization" = None →
     headers request !! "Authorization" = authHeaders x !! "Authorization").
Proof.
  intros request. subst request. cbn [buildRequest headers].
  split; [|split].
  - intros key value H. by apply lookup_union_Some_l.
  - intros H. rewrite lookup_union_r by done.
    rewrite lookup_insert_ne by done. apply lookup_insert_eq.
  - intros H. rewrite lookup_union_r by done.
    by rewrite !lookup_insert_ne by done.
Qed.

Lemma caller_headers_win_witness :
  let x := extractAuthDetails
             {| token := Some "abc"; sessionOrganizationId := None;
                sessionWorkspaceId := None |} fresh in
  let options := {| optMethod := Some "POST"; optBody := None;
                    optHeaders := {[ "Content-Type" := "text/plain" ]} |} in
  headers (buildRequest "/v1/x" options x) !! "Content-Type" = Some "text/plain"
  ∧ headers (buildRequest "/v1/x" options x) !! "Authorization"
    = Some "Bearer abc".
Proof.
  intros x options.
  destruct (caller_headers_win "/v1/x" options x) as (H1 & _ & H3).
  split; [apply H1; by vm_compute|]. rewrite H3; by vm_compute.
Defined.

(** X24.  The script on the page takes the first of the three keys of
    [localStorage] that holds a non-empty string, in the order
    [claude_session_token], [auth_token], [access_token]; when the first
    two hold none, the token is whatever the third holds, be it empty or
    missing; the extractor has a token after it exactly if one of the
    three does. *)
Theorem token_keys_in_order (localStorage sessionStorage : gmap string string) :
  let a := evaluateAuth localStorage sessionStorage in
  (truthy (localStorage !! "claude_session_token") = true →
   token a = localStorage !! "claude_session_token")
  ∧ (truthy (localStorage !! "claude_session_token") = false →
     truthy (localStorage !! "auth_token") = true →
     token a = localStorage !! "auth_token")
  ∧ (truthy (localStorage !! "claude_session_token") = false →
     truthy (localStorage !! "auth_token") = false →
     token a = localStorage !! "access_token")
  ∧ hasSessionToken (extractAuthDetails a fresh)
    = truthy (localStorage !! "claude_session_token")
      || truthy (localStorage !! "auth_token")
      || truthy (localStorage !! "access_token").
Proof.
  intros a. subst a. unfold evaluateAuth, hasSessionToken, extractAuthDetails.
  cbn [token sessionToken]. unfold orElse.
  destruct (truthy (localStorage !! "claude_session_token")) eqn:H1;
    cbn [orb]; rewrite ?H1; [by repeat split; cbn|].
  destruct (truthy (localStorage !! "auth_token")) eqn:H2;
    cbn [orb]; rewrite ?H2; [by repeat split; cbn|].
  split; [done|]. split; [done|]. split; [done|].
  by destruct (truthy (localStorage !! "access_token")) eqn:H3.
Qed.

Lemma token_keys_in_order_witness :
  token (evaluateAuth {[ "auth_token" := "b"; "access_token" := "c" ]} ∅)
  = Some "b"
  ∧ token (evaluateAuth {[ "auth_token" := ""; "access_token" := "c" ]} ∅)
    = Some "c".
Proof.
  destruct (token_keys_in_order
              {[ "auth_token" := "b"; "access_token" := "c" ]} ∅)
    as (_ & H2 & _).
  destruct (token_keys_in_order
              {[ "auth_token" := ""; "access_token" := "c" ]} ∅)
    as (_ & _ & H3 & _).
  split; [rewrite H2; by vm_compute | rewrite H3; by vm_compute].
Defined.

(** [makeAPIRequest] resolves only with the body of a response
    that is [ok]: for any other status it rejects, whatever the body
    holds, with the status and its text in the message. *)
Theorem only_ok_responses_resolve {J : Type} (fetch : Request → fetched J)
    (endpoint : string) (options : Options) (x : ClaudeCodeAPIExtractor) :
  (∀ j, makeAPIRequest fetch endpoint options x = Fulfilled j →
        ∃ r, fetch (buildRequest endpoint options x) = Responded r
             ∧ ok r = true ∧ json r = Fulfilled j)
  ∧ (∀ r, fetch (buildRequest endpoint options x) = Responded r →
          ok r = false →
          makeAPIRequest fetch endpoint options x
          = Rejected ("API request failed: " +:+ pretty (status r)
                      +:+ " " +:+ statusText r)).
Proof.
  unfold makeAPIRequest. split.
  - intros j H. destruct (fetch _) as [r|e]; [|done].
    destruct (ok r) eqn:Hok; [|done]. eauto.
  - intros r -> Hok. by rewrite Hok.
Qed.

Lemma only_ok_responses_resolve_witness :
  makeAPIRequest
    (fun _ => Responded {| ok := false; status := 429;
                           statusText := "Too Many Requests";
                           json := Fulfilled 7%nat |})
    "/v1/x" {| optMethod := None; optBody := None; optHeaders := ∅ |} fresh
  = Rejected "API request failed: 429 Too Many Requests".
Proof.
  destruct (only_ok_responses_resolve
              (fun _ => Responded {| ok := false; status := 429;
                                     statusText := "Too Many Requests";
                                     json := Fulfilled 7%nat |})
              "/v1/x" {| optMethod := None; optBody := None; optHeaders := ∅ |}
              fresh) as [_ H].
  rewrite (H _ eq_refl eq_refl). by vm_compute.
Defined.

Lemma token_is_never_cleared_witness :
  let pages :=
    [ {| token := Some "abc"; sessionOrganizationId := Some "one";
         sessionWorkspaceId := None |};
      {| token := None; sessionOrganizationId := Some "two";
         sessionWorkspaceId := None |} ] in
  let x := fold_left (fun x a => extractAuthDetails a x) pages fresh in
  authHeaders x !! "Authorization" = Some "Bearer abc"
  ∧ authHeaders x !! "X-Organization-Id" = Some "one"
  ∧ organizationId x = Some "two".
Proof.
  intros pages x.
  destruct (token_is_never_cleared pages) as (_ & H & _ & Horg).
  split; [apply (H "abc"); by vm_compute|]. split; [by vm_compute|].
  fold x in Horg. rewrite Horg. by vm_compute.
Defined.

End ExtractorSpec.

(** ** The proxy *)

Module ProxySpec.

Import JS Proxy.

Section Facts.

Context {BrowserContext J : Type} (typeError : string).
Implicit Types px : ClaudeCodeProxy BrowserContext.
Implicit Types w : world BrowserContext J.

(** The head of [request] leaves the counts as [shouldThrottle] left
    them. *)
Lemma gate_counts w (endpoint : string) (rl : RateLimit.RateLimitHandler) :
  RateLimit.requestCounts (snd (throttleGate w endpoint rl))
  = RateLimit.requestCounts
      (snd (RateLimit.shouldThrottle (now w) endpoint rl)).
Proof.
  unfold throttleGate.
  destruct (RateLimit.shouldThrottle (now w) endpoint rl) as [[|] rl1]; done.
Qed.

Lemma gate_wait w (endpoint : string) (rl : RateLimit.RateLimitHandler) :
  fst (throttleGate w endpoint rl)
  = (if fst (RateLimit.shouldThrottle (now w) endpoint rl)
     then Some (Num (60000 * RateLimit.backoffMultiplier rl)) else None)
  ∧ (fst (RateLimit.shouldThrottle (now w) endpoint rl) = true →
     RateLimit.backoffMultiplier (snd (throttleGate w endpoint rl)) = 1).
Proof.
  unfold throttleGate, RateLimit.shouldThrottle.
  destruct (_ <? now w); cbn [fst snd]; case_match; done.
Qed.

(** [request], by what the queue does with its function and by what
    becomes of the wait for a session. *)
Lemma request_cases w (endpoint : string) (options : Extractor.Options) px :
  request typeError w endpoint options px
  = let st := (snd (throttleGate w endpoint (rateLimiter px)), apiExtractor px) in
    let waited := fst (throttleGate w endpoint (rateLimiter px)) in
    let qp := sessionPool px in
    if Queue.canStart (Queue.queue qp) then
      match Pool.acquireSession (others w) (Queue.pool qp) with
      | (Fulfilled (sessionId, context), q) =>
          let r := task typeError w endpoint options context st in
          ((waited, fst r),
           {| sessionPool :=
                match fst r with
                | Pending =>
                    {| Queue.pool := q;
                       Queue.queue := Queue.running (Queue.queue qp) |}
                | _ =>
                    {| Queue.pool := Pool.releaseSession sessionId q;
                       Queue.queue := Queue.queue qp |}
                end;
              rateLimiter := fst (snd r);
              apiExtractor := snd (snd r) |})
      | (Rejected e, q) =>
          ((waited, Rejected e),
           {| sessionPool := {| Queue.pool := q; Queue.queue := Queue.queue qp |};
              rateLimiter := fst st; apiExtractor := snd st |})
      | (Pending, q) =>
          ((waited, Pending),
           {| sessionPool :=
                {| Queue.pool := q;
                   Queue.queue := Queue.running (Queue.queue qp) |};
              rateLimiter := fst st; apiExtractor := snd st |})
      end
    else
      ((waited, Pending),
       {| sessionPool :=
            {| Queue.pool := Queue.pool qp;
               Queue.queue := Queue.enqueued (Queue.queue qp) |};
          rateLimiter := fst st; apiExtractor := snd st |}).
Proof.
  unfold request, session.
  destruct (throttleGate w endpoint (rateLimiter px)) as [waited rl].
  unfold Queue.executeWithSession, Queue.add.
  destruct (Queue.canStart (Queue.queue (sessionPool px))); [|done].
  unfold Pool.executeWithSession, Pool.bind, Pool.try_finally.
  destruct (Pool.acquireSession (others w) (Queue.pool (sessionPool px)))
    as [[[sid ctx]|e|] q]; cbn [fst snd]; [|done|done].
  by destruct (fst (task typeError w endpoint options ctx (rl, apiExtractor px))).
Qed.

(** [request], by the session its function is run with.  The wait for a
    session never rejects, so without a session the request is pending
    and has touched neither the limiter nor the extractor. *)
Lemma request_by_session w (endpoint : string) (options : Extractor.Options)
    px :
  let st := (snd (throttleGate w endpoint (rateLimiter px)), apiExtractor px) in
  let r := request typeError w endpoint options px in
  match session w px with
  | Some (_, context) =>
      snd (fst r) = fst (task typeError w endpoint options context st)
      ∧ rateLimiter (snd r) = fst (snd (task typeError w endpoint options context st))
      ∧ apiExtractor (snd r) = snd (snd (task typeError w endpoint options context st))
  | None =>
      snd (fst r) = Pending
      ∧ rateLimiter (snd r) = fst st
      ∧ apiExtractor (snd r) = apiExtractor px
  end.
Proof.
  intros st r. subst st r. rewrite request_cases. unfold session.
  destruct (Queue.canStart (Queue.queue (sessionPool px))); [|done].
  pose proof (PoolSpec.acquire_never_rejects (others w)
                (Queue.pool (sessionPool px))) as Hnever.
  destruct (Pool.acquireSession (others w) (Queue.pool (sessionPool px)))
    as [[[sid ctx]|e|] q]; cbn [fst snd]; [done| |done].
  by destruct (Hnever e).
Qed.

(** The try block counts the request exactly when the API call, made
    with the extractor it leaves, has resolved. *)
Lemma attempt_spec w (endpoint : string) (options : Extractor.Options)
    (page : Extractor.Page) (rl : RateLimit.RateLimitHandler)
    (x : Extractor.ClaudeCodeAPIExtractor) :
  let r := attempt w endpoint options page (rl, x) in
  (∃ j, fst r = Fulfilled j
        ∧ fst (snd r) = RateLimit.recordRequest endpoint rl
        ∧ Extractor.makeAPIRequest (fetch w) endpoint options (snd (snd r))
          = Fulfilled j)
  ∨ ((∀ j, fst r ≠ Fulfilled j) ∧ fst (snd r) = rl).
Proof.
  unfold attempt. cbn [fst snd].
  destruct (if Extractor.hasSessionToken x then _ else _) as [[u|e|] x'];
    [|by right|by right].
  destruct (Extractor.makeAPIRequest (fetch w) endpoint options x') as [j|e|]
    eqn:Hcall; cbn [fst snd]; [|by right|by right].
  left. by exists j.
Qed.

(** The same for the whole function: it is only a [close] of the page
    that does not resolve that can keep a counted request from
    resolving, and the request then ends as that [close] does. *)
Lemma task_spec w (endpoint : string) (options : Extractor.Options)
    (context : option BrowserContext) (rl : RateLimit.RateLimitHandler)
    (x : Extractor.ClaudeCodeAPIExtractor) :
  let r := task typeError w endpoint options context (rl, x) in
  (∃ j, fst (snd r) = RateLimit.recordRequest endpoint rl
        ∧ Extractor.makeAPIRequest (fetch w) endpoint options (snd (snd r))
          = Fulfilled j
        ∧ (fst r = Fulfilled j
           ∨ ∃ c page, context = Some c ∧ newPage w c = Fulfilled page
                       ∧ ((∃ e, Extractor.close page = Rejected e
                                ∧ fst r = Rejected e)
                          ∨ (Extractor.close page = Pending
                             ∧ fst r = Pending))))
  ∨ ((∀ j, fst r ≠ Fulfilled j) ∧ fst (snd r) = rl).
Proof.
  unfold task. destruct context as [c|]; [|by right].
  destruct (newPage w c) as [page|e|] eqn:Hpage; [|by right|by right].
  pose proof (attempt_spec w endpoint options page rl x) as H.
  destruct (attempt w endpoint options page (rl, x)) as [outcome st'].
  cbn [fst snd] in *.
  destruct H as [(j & -> & Hrl & Hcall) | [Hno Hrl]].
  - left. exists j. split; [done|]. split; [done|].
    cbn [finallyClose].
    destruct (Extractor.close page) as [[]|e|] eqn:Hclose; [by left| |].
    + right. exists c, page. split; [done|]. split; [done|].
      left. by exists e.
    + right. exists c, page. split; [done|]. split; [done|]. by right.
  - right. split; [|done]. intros j.
    destruct outcome as [j'|e|]; cbn [finallyClose];
      [by destruct (Hno j')| |done]; by destruct (Extractor.close page).
Qed.

(** The extractor the function leaves. *)
Lemma task_extractor w (endpoint : string) (options : Extractor.Options)
    (context : option BrowserContext) (rl : RateLimit.RateLimitHandler)
    (x : Extractor.ClaudeCodeAPIExtractor) :
  snd (snd (task typeError w endpoint options context (rl, x)))
  = if Extractor.hasSessionToken x then x
    else match context with
         | Some c =>
             match newPage w c with
             | Fulfilled page => snd (Extractor.extractFromBrowser page x)
             | _ => x
             end
         | None => x
         end.
Proof.
  unfold task. destruct context as [c|]; [|by destruct (Extractor.hasSessionToken x)].
  destruct (newPage w c) as [page|e|];
    [|by destruct (Extractor.hasSessionToken x)..].
  unfold attempt. cbn [fst snd].
  destruct (Extractor.hasSessionToken x).
  - by destruct (Extractor.makeAPIRequest _ _ _ _).
  - destruct (Extractor.extractFromBrowser page x) as [[u|e|] x']; [|done|done].
    by destruct (Extractor.makeAPIRequest _ _ _ _).
Qed.

(** [extractFromBrowser] changes the extractor only when the two
    scripts are installed and the evaluation resolves. *)
Lemma extractFromBrowser_cases (page : Extractor.Page)
    (x : Extractor.ClaudeCodeAPIExtractor) :
  (∃ a, Extractor.addInitScript page 0 = Fulfilled tt
        ∧ Extractor.addInitScript page 1 = Fulfilled tt
        ∧ Extractor.evaluate page = Fulfilled a
        ∧ snd (Extractor.extractFromBrowser page x)
          = Extractor.extractAuthDetails a x)
  ∨ snd (Extractor.extractFromBrowser page x) = x.
Proof.
  unfold Extractor.extractFromBrowser.
  destruct (Extractor.addInitScript page 0) as [[]|e|]; [|by right|by right].
  destruct (Extractor.addInitScript page 1) as [[]|e|]; [|by right|by right].
  destruct (Extractor.evaluate page) as [a|e|]; [|by right|by right].
  left. by exists a.
Qed.

(** What the limiter is like shows neither in the outcome of the task nor
    in the extractor it leaves. *)
Lemma task_ignores_limiter w (endpoint : string) (options : Extractor.Options)
    (context : option BrowserContext) (rl rl' : RateLimit.RateLimitHandler)
    (x : Extractor.ClaudeCodeAPIExtractor) :
  fst (task typeError w endpoint options context (rl, x))
  = fst (task typeError w endpoint options context (rl', x))
  ∧ snd (snd (task typeError w endpoint options context (rl, x)))
    = snd (snd (task typeError w endpoint options context (rl', x))).
Proof.
  split; [|by rewrite !task_extractor].
  unfold task. destruct context as [c|]; [|done].
  destruct (newPage w c) as [page|e|]; [|done|done].
  unfold attempt. cbn [fst snd].
  destruct (if Extractor.hasSessionToken x then _ else _) as [[u|e|] x'];
    [|done|done].
  by destruct (Extractor.makeAPIRequest _ _ _ _).
Qed.

(** The function leaves the multiplier of the limiter alone. *)
Lemma task_multiplier w (endpoint : string) (options : Extractor.Options)
    (context : option BrowserContext) (rl : RateLimit.RateLimitHandler)
    (x : Extractor.ClaudeCodeAPIExtractor) :
  RateLimit.backoffMultiplier
    (fst (snd (task typeError w endpoint options context (rl, x))))
  = RateLimit.backoffMultiplier rl.
Proof.
  destruct (task_spec w endpoint options context rl x)
    as [(j & -> & _) | [_ ->]]; done.
Qed.

(** X25.  [request] records a request in the rate window only when the
    API call has resolved: a call that is rejected, a response with
    status 429 among them, or that never returns, and a request that
    does not get as far as the call, leave the count of the endpoint
    where [shouldThrottle] left it; a call that resolves adds one.  So a
    request that resolves is counted, and it resolves with what the API
    call gave.  While pages close without error the counted requests are
    exactly those that resolve; when [page.close()] fails or hangs after
    a call has resolved, the request is counted although the caller sees
    it fail, with the error of [close], or never end. *)
Theorem only_resolved_calls_are_counted w (endpoint : string)
    (options : Extractor.Options) px :
  let r := request typeError w endpoint options px in
  let before :=
    RateLimit.getOr0
      (RateLimit.requestCounts
         (snd (RateLimit.shouldThrottle (now w) endpoint (rateLimiter px))))
      endpoint in
  let count :=
    RateLimit.getOr0 (RateLimit.requestCounts (rateLimiter (snd r))) endpoint in
  (count = before ∨ count = before + 1)
  ∧ (∀ j, snd (fst r) = Fulfilled j →
          count = before + 1
          ∧ Extractor.makeAPIRequest (fetch w) endpoint options
              (apiExtractor (snd r)) = Fulfilled j)
  ∧ (count = before + 1 →
     ∃ j, Extractor.makeAPIRequest (fetch w) endpoint options
            (apiExtractor (snd r)) = Fulfilled j
          ∧ (snd (fst r) = Fulfilled j
             ∨ ∃ c page, newPage w c = Fulfilled page
                         ∧ ((∃ e, Extractor.close page = Rejected e
                                  ∧ snd (fst r) = Rejected e)
                            ∨ (Extractor.close page = Pending
                               ∧ snd (fst r) = Pending))))
  ∧ ((∀ c page, newPage w c = Fulfilled page →
                Extractor.close page = Fulfilled tt) →
     count = match snd (fst r) with
             | Fulfilled _ => before + 1
             | _ => before
             end).
Proof.
  intros r before count. subst r before count.
  pose proof (request_by_session w endpoint options px) as H.
  cbn zeta in H. rewrite <- gate_counts.
  destruct (session w px) as [[sid ctx]|].
  - destruct H as (-> & -> & ->).
    set (rl := snd (throttleGate w endpoint (rateLimiter px))).
    destruct (task_spec w endpoint options ctx rl (apiExtractor px))
      as [(j & -> & Hcall & Hout) | [Hno ->]].
    + cbn [RateLimit.recordRequest RateLimit.requestCounts].
      rewrite RateLimitSpec.getOr0_insert_eq.
      split; [by right|]. split; [|split].
      * intros j' Hj'. split; [done|].
        destruct Hout as [Hj | (c & page & _ & _ & [(e & _ & He) | [_ He]])];
          congruence.
      * intros _. exists j. split; [done|].
        destruct Hout as [Hj | (c & page & _ & Hpage & Hend)]; [by left|].
        right. by exists c, page.
      * intros Hclose.
        destruct Hout as [-> | (c & page & _ & Hpage & [(e & He & _) | [He _]])];
          [done| |]; by rewrite (Hclose c page Hpage) in He.
    + split; [by left|]. split; [intros j Hj; by destruct (Hno j)|].
      split; [lia|]. intros _.
      destruct (fst (task _ _ _ _ _ _)) as [j|e|]; [by destruct (Hno j)|done..].
  - destruct H as (-> & -> & _). cbn [fst].
    split; [by left|]. split; [done|]. split; [lia|done].
Qed.

(** X26.  Being throttled delays a request and does nothing else to it:
    when [shouldThrottle] says so, [request] first waits 60000 ms times
    the multiplier and leaves the multiplier at 1, otherwise it does not
    wait; and its outcome, the pool and the extractor it leaves are the
    same whatever state the limiter is in. *)
Theorem throttling_only_delays w (endpoint : string)
    (options : Extractor.Options) px (rl : RateLimit.RateLimitHandler) :
  let r := request typeError w endpoint options px in
  let r' := request typeError w endpoint options
              {| sessionPool := sessionPool px; rateLimiter := rl;
                 apiExtractor := apiExtractor px |} in
  fst (fst r)
  = (if fst (RateLimit.shouldThrottle (now w) endpoint (rateLimiter px))
     then Some (Num (60000 * RateLimit.backoffMultiplier (rateLimiter px)))
     else None)
  ∧ (fst (RateLimit.shouldThrottle (now w) endpoint (rateLimiter px)) = true →
     RateLimit.backoffMultiplier (rateLimiter (snd r)) = 1)
  ∧ snd (fst r) = snd (fst r')
  ∧ sessionPool (snd r) = sessionPool (snd r')
  ∧ apiExtractor (snd r) = apiExtractor (snd r').
Proof.
  intros r r'. subst r r'. rewrite !request_cases.
  cbn [sessionPool rateLimiter apiExtractor].
  destruct (gate_wait w endpoint (rateLimiter px)) as [Hwait Hone].
  destruct (throttleGate w endpoint (rateLimiter px)) as [waited rl1].
  destruct (throttleGate w endpoint rl) as [waited' rl1'].
  cbn [fst snd] in *.
  destruct (Queue.canStart (Queue.queue (sessionPool px)));
    cbn [fst snd sessionPool rateLimiter apiExtractor]; [|done].
  destruct (Pool.acquireSession (others w) (Queue.pool (sessionPool px)))
    as [[[sid ctx]|e|] q]; cbn [fst snd sessionPool rateLimiter apiExtractor].
  - destruct (task_ignores_limiter w endpoint options ctx rl1 rl1'
                (apiExtractor px)) as [Hout Hx].
    rewrite <- Hout, <- Hx. split; [done|]. split; [|done].
    intros Hthr. rewrite task_multiplier. by apply Hone.
  - done.
  - done.
Qed.

(** X27.  [request] gives its session back: when it has ended, well or
    badly, a pool whose books were sound and that had a session
    available has the same available list and the same busy set as
    before, and its queue counts what it counted before. *)
Theorem request_returns_its_session w (endpoint : string)
    (options : Extractor.Options) px :
  Pool.conserved (Queue.pool (sessionPool px)) →
  Pool.availableSessions (Queue.pool (sessionPool px)) ≠ [] →
  let r := request typeError w endpoint options px in
  snd (fst r) ≠ Pending →
  Pool.availableSessions (Queue.pool (sessionPool (snd r)))
  = Pool.availableSessions (Queue.pool (sessionPool px))
  ∧ Pool.busySessions (Queue.pool (sessionPool (snd r)))
    = Pool.busySessions (Queue.pool (sessionPool px))
  ∧ Queue.queue (sessionPool (snd r)) = Queue.queue (sessionPool px).
Proof.
  intros Hcons Hne r. subst r. rewrite request_cases. cbn zeta.
  destruct (Queue.canStart (Queue.queue (sessionPool px)));
    cbn [fst snd sessionPool]; [|done].
  destruct (PoolMore.take_nonempty _ Hne) as [[[sid ctx] q] Htake].
  rewrite (PoolMore.acquire_at_once (others w) _ _ _ Htake).
  cbn [fst snd sessionPool]. intros Hsettled.
  destruct (PoolMore.take_shape _ _ _ _ Htake) as (Hav & Hbusy & _).
  assert (Pool.availableSessions (Pool.releaseSession sid q)
          = Pool.availableSessions (Queue.pool (sessionPool px))
          ∧ Pool.busySessions (Pool.releaseSession sid q)
            = Pool.busySessions (Queue.pool (sessionPool px))) as Hrel.
  { cbn [Pool.releaseSession Pool.availableSessions Pool.busySessions].
    by rewrite Hbusy, (PoolMore.busy_restored _ sid _ Hcons Hav), Hav. }
  destruct (fst (task typeError w endpoint options ctx _));
    cbn [Queue.pool Queue.queue]; [|by destruct Hrel|done].
  by destruct Hrel.
Qed.

(** X28.  The token is read from the page once.  A proxy whose extractor
    has a token does not look at the page again, whatever the page now
    holds and however the call ends.  One that has none reads the page
    its session opens: when the queue starts the request (fewer than its
    five are running and none waits), the pool hands it a session with a
    context, the page opens, the two scripts are installed and the
    evaluation resolves, the extractor holds what the evaluation found.
    In every other case, a request that waits in the queue or for a
    session, a page that does not open, a script or an evaluation that
    fails, the extractor is left as it was. *)
Theorem token_is_extracted_once w (endpoint : string)
    (options : Extractor.Options) px :
  let r := request typeError w endpoint options px in
  let q := Queue.queue (sessionPool px) in
  (Extractor.hasSessionToken (apiExtractor px) = true →
   apiExtractor (snd r) = apiExtractor px)
  ∧ (∀ (sessionId : string) (context : BrowserContext)
       (page : Extractor.Page) (a : Extractor.AuthData),
       Extractor.hasSessionToken (apiExtractor px) = false →
       (Queue.pending q < Queue.concurrency q)%nat →
       Queue.size q = 0%nat →
       fst (Pool.acquireSession (others w) (Queue.pool (sessionPool px)))
       = Fulfilled (sessionId, Some context) →
       newPage w context = Fulfilled page →
       Extractor.addInitScript page 0 = Fulfilled tt →
       Extractor.addInitScript page 1 = Fulfilled tt →
       Extractor.evaluate page = Fulfilled a →
       apiExtractor (snd r) = Extractor.extractAuthDetails a (apiExtractor px))
  ∧ (apiExtractor (snd r) ≠ apiExtractor px →
     Extractor.hasSessionToken (apiExtractor px) = false
     ∧ (Queue.pending q < Queue.concurrency q)%nat
     ∧ Queue.size q = 0%nat
     ∧ ∃ (sessionId : string) (context : BrowserContext)
         (page : Extractor.Page) (a : Extractor.AuthData),
         fst (Pool.acquireSession (others w) (Queue.pool (sessionPool px)))
         = Fulfilled (sessionId, Some context)
         ∧ newPage w context = Fulfilled page
         ∧ Extractor.addInitScript page 0 = Fulfilled tt
         ∧ Extractor.addInitScript page 1 = Fulfilled tt
         ∧ Extractor.evaluate page = Fulfilled a
         ∧ apiExtractor (snd r)
           = Extractor.extractAuthDetails a (apiExtractor px)).
Proof.
  intros r q. subst r q.
  pose proof (request_by_session w endpoint options px) as H.
  cbn zeta in H. unfold session in H.
  split; [|split].
  - intros Htok.
    destruct (Queue.canStart _); [|by destruct H as (_ & _ & ->)].
    destruct (fst (Pool.acquireSession _ _)) as [[sid ctx]|e|];
      [|by destruct H as (_ & _ & ->)..].
    destruct H as (_ & _ & ->). by rewrite task_extractor, Htok.
  - intros sid c page a Htok Hroom Hnone Hacq Hpage H0 H1 Ha.
    assert (Queue.canStart (Queue.queue (sessionPool px)) = true) as Hq
      by (by apply PoolMore.canStart_true).
    rewrite Hq, Hacq in H. destruct H as (_ & _ & ->).
    rewrite task_extractor, Htok, Hpage.
    unfold Extractor.extractFromBrowser. by rewrite H0, H1, Ha.
  - intros Hchanged.
    destruct (Queue.canStart _) eqn:Hq; [|by destruct H as (_ & _ & Hx)].
    apply PoolMore.canStart_true in Hq as [Hroom Hnone].
    destruct (fst (Pool.acquireSession _ _)) as [[sid ctx]|e|] eqn:Hacq;
      [|by destruct H as (_ & _ & Hx)..].
    destruct H as (_ & _ & Hx). rewrite Hx in Hchanged |- *.
    rewrite task_extractor in Hchanged |- *.
    destruct (Extractor.hasSessionToken (apiExtractor px)); [done|].
    split; [done|]. split; [done|]. split; [done|].
    destruct ctx as [c|]; [|done].
    destruct (newPage w c) as [page|e|] eqn:Hpage; [|done|done].
    destruct (extractFromBrowser_cases page (apiExtractor px))
      as [(a & H0 & H1 & Ha & Heq) | Hsame]; [|by rewrite Hsame in Hchanged].
    exists sid, c, page, a. by rewrite Heq.
Qed.

End Facts.

Lemma only_resolved_calls_are_counted_witness :
  RateLimit.getOr0
    (RateLimit.requestCounts
       (rateLimiter (snd (request "TypeError" Runs.refusing "/compile"
                            Runs.noOptions Runs.proxy10)))) "/compile" = 0
  ∧ RateLimit.getOr0
      (RateLimit.requestCounts
         (rateLimiter (snd (request "TypeError" Runs.answering "/compile"
                              Runs.noOptions Runs.proxy10)))) "/compile" = 1.
Proof.
  destruct (only_resolved_calls_are_counted "TypeError" Runs.refusing
              "/compile" Runs.noOptions Runs.proxy10) as (_ & _ & _ & H).
  destruct (only_resolved_calls_are_counted "TypeError" Runs.answering
              "/compile" Runs.noOptions Runs.proxy10) as (_ & H' & _).
  split.
  - etrans; [apply H|by vm_compute]. intros c page Hpage.
    injection Hpage as <-. reflexivity.
  - destruct (H' 7%nat) as [Hcount _]; [by vm_compute|].
    etrans; [exact Hcount|by vm_compute].
Defined.

(** The request that is counted and fails all the same: the server has
    answered, [page.close()] rejects, the caller gets that rejection,
    and the window of the endpoint holds one request more. *)
Lemma counted_request_can_fail :
  let r := request "TypeError" Runs.unclosing "/compile" Runs.noOptions
             Runs.proxy10 in
  snd (fst r) = Rejected "Target closed"
  ∧ RateLimit.getOr0 (RateLimit.requestCounts (rateLimiter (snd r))) "/compile"
    = 1.
Proof. by vm_compute. Qed.

Lemma throttling_only_delays_witness :
  fst (fst (request "TypeError" Runs.answering "/compile" Runs.noOptions
              Runs.proxy10_full)) = Some (Num 60000)
  ∧ RateLimit.backoffMultiplier
      (rateLimiter (snd (request "TypeError" Runs.answering "/compile"
                           Runs.noOptions Runs.proxy10_full))) = 1
  ∧ snd (fst (request "TypeError" Runs.answering "/compile" Runs.noOptions
                Runs.proxy10_full))
    = snd (fst (request "TypeError" Runs.answering "/compile" Runs.noOptions
                  Runs.proxy10)).
Proof.
  destruct (throttling_only_delays "TypeError" Runs.answering "/compile"
              Runs.noOptions Runs.proxy10_full RateLimit.fresh)
    as (H1 & H2 & H3 & _).
  split; [rewrite H1; by vm_compute|].
  split; [apply H2; by vm_compute|]. exact H3.
Defined.

Lemma request_returns_its_session_witness :
  Pool.availableSessions
    (Queue.pool (sessionPool (snd (request "TypeError" Runs.refusing "/compile"
                                     Runs.noOptions Runs.proxy10))))
  = Pool.availableSessions (Queue.pool (sessionPool Runs.proxy10)).
Proof.
  destruct (request_returns_its_session "TypeError" Runs.refusing "/compile"
              Runs.noOptions Runs.proxy10) as [H _].
  - by apply (bool_decide_unpack
                (Pool.conserved (Queue.pool (sessionPool Runs.proxy10)))).
  - by vm_compute.
  - by vm_compute.
  - exact H.
Defined.

Lemma token_is_extracted_once_witness :
  Extractor.sessionToken
    (apiExtractor (snd (request "TypeError" Runs.refusing "/compile"
                          Runs.noOptions Runs.proxy10))) = Some "abc"
  ∧ apiExtractor (snd (request "TypeError" Runs.crashing "/compile"
                         Runs.noOptions Runs.proxy10))
    = apiExtractor Runs.proxy10
  ∧ apiExtractor (snd (request "TypeError" Runs.answering "/compile"
                         Runs.noOptions Runs.proxy10_busy))
    = apiExtractor Runs.proxy10_busy.
Proof.
  destruct (token_is_extracted_once "TypeError" Runs.refusing "/compile"
              Runs.noOptions Runs.proxy10) as (_ & H & _).
  split; [|split].
  - rewrite (H "session-9" 9%nat Runs.page Runs.authData);
      first [by vm_compute | vm_compute; lia].
  - by vm_compute.
  - by vm_compute.
Defined.

End ProxySpec.
